(** * github-contributions: aggregation, enrichment, caching and projection

    A shallow embedding of [src/lib.ts].  Strings are [string] (sequences of
    8-bit characters, compared the way JavaScript compares code units),
    numbers that the program only ever uses as integers are [Z] (with the
    binary64 rounding written out where a product can leave the exact
    range), the insertion-ordered [Map] and the JSON object [cache.repos]
    are association lists in insertion order, the process-wide [memoryCache]
    is a [gmap], and the remote API is an oracle passed as an argument.
    Asynchronous code is written in state-passing style: each function
    returns its result together with the log of the remote calls that it
    made. *)

From Stdlib Require Import ZArith List String Ascii Bool Lia.
From Stdlib Require OrderedTypeEx.
From stdpp Require Import base option list gmap strings pretty sorting.
Import ListNotations.

Local Open Scope Z_scope.

(** ** Data model *)

Record Repository := mkRepository {
  name : string;
  fullName : string;
  url : string;
  stars : Z;
  prCount : Z;
  isOwned : bool;
  isPrivate : bool;
  lastContributedAt : string
}.

(** One item of a search page: [pr.repository_url] and [pr.created_at]. *)
Record PullRequest := mkPullRequest {
  repository_url : string;
  created_at : string
}.

(** ** JavaScript string primitives used by the program *)

Module Js.

(** [s.split(sep)] for a one-character separator. *)
Fixpoint split (sep : ascii) (s : string) : list string :=
  match s with
  | EmptyString => [EmptyString]
  | String c s' =>
      if Ascii.eqb c sep then EmptyString :: split sep s'
      else match split sep s' with
           | [] => [String c EmptyString]
           | h :: t => String c h :: t
           end
  end.

(** [parts[i]] spliced into a template literal: an index outside the array
    reads [undefined], which the template prints as such. *)
Definition at_index (parts : list string) (i : Z) : string :=
  if i <? 0 then "undefined" else nth (Z.to_nat i) parts "undefined".

(** [s.startsWith(p)]. *)
Definition startsWith (s p : string) : bool := String.prefix p s.

(** [a > b] on strings: lexicographic on code units. *)
Definition gt (a b : string) : bool :=
  match String.compare a b with Gt => true | _ => false end.

(** A string in a condition: only the empty string is falsy. *)
Definition truthy (s : string) : bool := negb (String.eqb s "").

(** [arr.slice(start)] and [arr.slice(0, stop)] for integer arguments:
    a negative argument counts from the end of the array. *)
Definition clamp_index (len : nat) (k : Z) : nat :=
  if k <? 0 then Z.to_nat (Z.max 0 (Z.of_nat len + k))
  else Nat.min (Z.to_nat k) len.

Definition slice_to {A} (l : list A) (stop : Z) : list A :=
  firstn (clamp_index (length l) stop) l.

Definition slice_from {A} (l : list A) (start : Z) : list A :=
  skipn (clamp_index (length l) start) l.

End Js.

(** ** JavaScript numbers

    A Number is an IEEE 754 binary64 value.  The numbers of a rollup are
    integers and are carried as [Z]; binary64 holds every integer up to 2^53
    and rounds beyond.  [Number] gives the binary64 result of the operations
    of the program whose result can round: the product and the square in
    the combined score. *)

Module Number.

(** The stand-in for [Infinity]: the least power of two above every finite
    binary64 value. *)
Definition infinity : Z := 2 ^ 1024.

(** The binary64 value nearest to a non-negative integer: the 53 leading
    bits are kept, and the rest rounds to nearest, a tie going to the even
    mantissa.  Integers up to 2^53 are exact. *)
Definition nearest (n : Z) : Z :=
  if n <=? 2 ^ 53 then n
  else
    let e := Z.log2 n - 52 in
    let q := Z.shiftr n e in
    let r := n - Z.shiftl q e in
    let half := Z.shiftl 1 (e - 1) in
    let up := (half <? r) || ((r =? half) && Z.odd q) in
    Z.shiftl (if up then q + 1 else q) e.

(** Rounding is symmetric in the sign; from the midpoint above the largest
    finite value on, the result is [Infinity]. *)
Definition round (z : Z) : Z :=
  let m := Z.min (nearest (Z.abs z)) infinity in
  if z <? 0 then - m else m.

(** [x * y].  [None] is [NaN], the product of zero and an infinity. *)
Definition mul (x y : Z) : option Z :=
  if ((x =? 0) && (Z.abs y =? infinity)) || ((y =? 0) && (Z.abs x =? infinity))
  then None
  else Some (round (x * y)).

(** [x ** 2].  ECMAScript leaves the precision of exponentiation to the
    engine; the square is taken here as the correctly rounded product
    [x * x]. *)
Definition square (x : Z) : Z := round (x * x).

(** [x - y] as [Array.prototype.sort] reads a callback's result: [NaN]
    (an operand is [NaN], or both are the same infinity) counts as 0, and
    the difference of two binary64 values has the sign of their exact
    difference. *)
Definition sub (x y : option Z) : Z :=
  match x, y with
  | Some x, Some y => x - y
  | _, _ => 0
  end.

End Number.

(** Lexicographic order on timestamps, the negation of [Js.gt]. *)
Definition ts_le (a b : string) : Prop := String.compare a b <> Gt.

(** ** Repository references *)

Definition isValidRepoUrl (url : string) : bool :=
  Js.startsWith url "https://api.github.com/repos/".

Definition parseRepoUrl (url : string) : option string :=
  if negb (isValidRepoUrl url) then None
  else
    let parts := Js.split "/"%char url in
    let len := Z.of_nat (length parts) in
    Some (Js.at_index parts (len - 2) +:+ "/" +:+ Js.at_index parts (len - 1)).

(** ** The insertion-ordered map of rollups *)

Module ReposMap.

Definition t := list (string * Repository).

Fixpoint get (k : string) (m : t) : option Repository :=
  match m with
  | [] => None
  | (k', v) :: m' => if String.eqb k' k then Some v else get k m'
  end.

(** [m.set(k, v)]: an existing key keeps its position, a new one is
    appended. *)
Fixpoint set (k : string) (v : Repository) (m : t) : t :=
  match m with
  | [] => [(k, v)]
  | (k', v') :: m' =>
      if String.eqb k' k then (k', v) :: m' else (k', v') :: set k v m'
  end.

(** [Array.from(m.values())]. *)
Definition values (m : t) : list Repository := map snd m.

End ReposMap.

(** ** Folding one pull request into the map (body of the [for] loop of
    [fetchPRsForYear]) *)

Definition bump (createdAt : string) (existing : Repository) : Repository :=
  let counted :=
    mkRepository (name existing) (fullName existing) (url existing)
      (stars existing) (prCount existing + 1) (isOwned existing)
      (isPrivate existing) (lastContributedAt existing) in
  if Js.gt createdAt (lastContributedAt counted)
  then mkRepository (name counted) (fullName counted) (url counted)
         (stars counted) (prCount counted) (isOwned counted)
         (isPrivate counted) createdAt
  else counted.

Definition newRollup (username fullName createdAt : string) : Repository :=
  mkRepository (Js.at_index (Js.split "/"%char fullName) 1) fullName
    ("https://github.com/" +:+ fullName) 0 1
    (Js.startsWith fullName (username +:+ "/")) false createdAt.

Definition foldPR (username : string) (reposMap : ReposMap.t) (pr : PullRequest)
  : ReposMap.t :=
  let url := repository_url pr in
  let createdAt := created_at pr in
  match parseRepoUrl url with
  | Some fullName =>
      if Js.truthy fullName then
        match ReposMap.get fullName reposMap with
        | Some existing =>
            ReposMap.set fullName (bump createdAt existing) reposMap
        | None =>
            ReposMap.set fullName (newRollup username fullName createdAt) reposMap
        end
      else reposMap
  | None => reposMap
  end.

Definition foldItems (username : string) (items : list PullRequest)
  (reposMap : ReposMap.t) : ReposMap.t :=
  fold_left (foldPR username) items reposMap.

(** ** The remote data source

    [ghApi] either throws or returns a body.  The search endpoint is indexed
    by the three things the query string varies in; the repository endpoint
    by the full name. *)

Inductive SearchResponse :=
| SearchError (message : string)
| SearchBody (items : option (list PullRequest)).

Record RepoBody := mkRepoBody {
  stargazers_count : option Z;
  private : option bool
}.

Inductive RepoResponse :=
| RepoError (message : string)
| RepoOk (body : RepoBody).

Record Remote := mkRemote {
  search : string -> Z -> Z -> SearchResponse;
  repo : string -> RepoResponse
}.

(** The result of an asynchronous function: a value, a rejection, or (an
    artefact of the model only) not enough fuel to finish the page loop. *)
Inductive Outcome (A : Type) :=
| Ok (a : A)
| Failed (message : string)
| OutOfFuel.
Arguments Ok {A} a.
Arguments Failed {A} message.
Arguments OutOfFuel {A}.

(** ** PR aggregator *)

Definition perPage : Z := 100.
Definition startYear : Z := 2015.

(** The [while (true)] loop of [fetchPRsForYear]; the log lists the
    [(year, page)] requests in the order they were made. *)
Fixpoint fetchPRsForYear_from (fuel : nat) (remote : Remote) (username : string)
  (year page totalFetched : Z) (reposMap : ReposMap.t)
  : list (Z * Z) * Outcome (Z * ReposMap.t) :=
  match fuel with
  | O => ([], OutOfFuel)
  | S fuel' =>
      match search remote username year page with
      | SearchError message => ([(year, page)], Failed message)
      | SearchBody body =>
          let items := default [] body in
          let n := Z.of_nat (length items) in
          if n =? 0 then ([(year, page)], Ok (totalFetched, reposMap))
          else
            let totalFetched := totalFetched + n in
            let reposMap := foldItems username items reposMap in
            if n <? perPage then ([(year, page)], Ok (totalFetched, reposMap))
            else
              let '(log, out) :=
                fetchPRsForYear_from fuel' remote username year (page + 1)
                  totalFetched reposMap in
              ((year, page) :: log, out)
      end
  end.

Definition fetchPRsForYear (fuel : nat) (remote : Remote) (username : string)
  (year : Z) (reposMap : ReposMap.t) : list (Z * Z) * Outcome (Z * ReposMap.t) :=
  fetchPRsForYear_from fuel remote username year 1 0 reposMap.

(** The [for (year = currentYear; year >= startYear; year--)] loop, with
    [n] iterations left. *)
Fixpoint fetchYears (fuel : nat) (remote : Remote) (username : string)
  (n : nat) (year : Z) (reposMap : ReposMap.t)
  : list (Z * Z) * Outcome ReposMap.t :=
  match n with
  | O => ([], Ok reposMap)
  | S n' =>
      match fetchPRsForYear fuel remote username year reposMap with
      | (log, Ok (_, reposMap')) =>
          let '(log', out) :=
            fetchYears fuel remote username n' (year - 1) reposMap' in
          (log ++ log', out)
      | (log, Failed message) => (log, Failed message)
      | (log, OutOfFuel) => (log, OutOfFuel)
      end
  end.

Definition fetchContributedRepos (fuel : nat) (remote : Remote)
  (username : string) (currentYear : Z)
  : list (Z * Z) * Outcome (list Repository) :=
  match fetchYears fuel remote username
          (Z.to_nat (currentYear - startYear + 1)) currentYear [] with
  | (log, Ok reposMap) => (log, Ok (ReposMap.values reposMap))
  | (log, Failed message) => (log, Failed message)
  | (log, OutOfFuel) => (log, OutOfFuel)
  end.

(** The items of the pages that a log of requests names. *)
Definition itemsOf (remote : Remote) (username : string) (request : Z * Z)
  : list PullRequest :=
  match search remote username (fst request) (snd request) with
  | SearchError _ => []
  | SearchBody body => default [] body
  end.

(** ** Durable cache *)

Module Cache.
(** [repos] is the JSON object [Record<string, Repository>] in key order;
    [fetchedAt] is [None] for the empty string and otherwise the instant,
    in milliseconds, that the ISO string written by [saveCache] denotes. *)
Record t := mk {
  username : string;
  repos : ReposMap.t;
  fetchedAt : option Z
}.
Definition empty : t := mk "" [] None.
End Cache.

Definition CACHE_TTL_MS : Z := 24 * 60 * 60 * 1000.
Definition CACHE_AGE_MS : Z := 60 * 1000.
Definition STALE_WHILE_REVALIDATE_MS : Z := 24 * 60 * 60 * 1000.

(** The file is [None] when it is missing, empty or unparsable. *)
Definition loadCache (file : option Cache.t) : Cache.t :=
  default Cache.empty file.

Definition saveCache (now : Z) (cache : Cache.t) : Cache.t :=
  Cache.mk (Cache.username cache) (Cache.repos cache) (Some now).

Definition isCacheStale (now : Z) (cache : Cache.t) : bool :=
  match Cache.fetchedAt cache with
  | None => true
  | Some fetchedAt => now - fetchedAt >? CACHE_TTL_MS
  end.

(** ** Metadata enricher *)

Definition fetchRepoData (remote : Remote) (fullName : string) : Z * bool :=
  match repo remote fullName with
  | RepoOk data => (default 0 (stargazers_count data), default false (private data))
  | RepoError _ => (0, false)
  end.

(** [cache.repos[r.fullName] !== undefined]. *)
Definition isCached (cacheRepos : ReposMap.t) (r : Repository) : bool :=
  match ReposMap.get (fullName r) cacheRepos with Some _ => true | None => false end.

Definition cachedRepos (repos : list Repository) (cache : Cache.t) :=
  List.filter (isCached (Cache.repos cache)) repos.

Definition toFetch (repos : list Repository) (cache : Cache.t) :=
  List.filter (fun r => negb (isCached (Cache.repos cache) r)) repos.

(** Body of the first loop: the four assignments from the cached object. *)
Definition useCached (cached repo : Repository) : Repository :=
  mkRepository (name repo) (fullName repo) (url repo) (stars cached)
    (prCount repo) (isOwned cached) (isPrivate cached)
    (lastContributedAt cached).

(** Body of the second loop: the two assignments from the fetched data. *)
Definition useFetched (data : Z * bool) (repo : Repository) : Repository :=
  mkRepository (name repo) (fullName repo) (url repo) (fst data)
    (prCount repo) (isOwned repo) (snd data) (lastContributedAt repo).

(** First loop.  [cachedRepos] holds references into [repos], so the loop
    over it updates exactly the elements of [repos] that pass its filter;
    [cache] is not written here. *)
Definition copyCached (cache0 : ReposMap.t) (repos : list Repository)
  : list Repository :=
  map (fun r => match ReposMap.get (fullName r) cache0 with
                | Some cached => useCached cached r
                | None => r
                end) repos.

(** Second loop.  [toFetch] was computed from the cache as it was on entry
    ([cache0]); each of its elements is fetched, updated in place and copied
    into the cache.  The log lists the repositories fetched, in order. *)
Fixpoint fetchMissing (remote : Remote) (cache0 : ReposMap.t)
  (repos : list Repository) (cacheRepos : ReposMap.t)
  : list string * (list Repository * ReposMap.t) :=
  match repos with
  | [] => ([], ([], cacheRepos))
  | r :: rest =>
      if isCached cache0 r then
        let '(log, (rest', cacheRepos')) :=
          fetchMissing remote cache0 rest cacheRepos in
        (log, (r :: rest', cacheRepos'))
      else
        let r' := useFetched (fetchRepoData remote (fullName r)) r in
        let '(log, (rest', cacheRepos')) :=
          fetchMissing remote cache0 rest (ReposMap.set (fullName r) r' cacheRepos) in
        (fullName r :: log, (r' :: rest', cacheRepos'))
  end.

Definition fetchStarsForRepos (remote : Remote) (repos : list Repository)
  (cache : Cache.t) : list string * (list Repository * Cache.t) :=
  let cache0 := Cache.repos cache in
  let '(log, (repos', cacheRepos')) :=
    fetchMissing remote cache0 (copyCached cache0 repos) cache0 in
  (log, (repos', Cache.mk (Cache.username cache) cacheRepos' (Cache.fetchedAt cache))).

(** ** Query configuration *)

Inductive Scope := ScopeOwn | ScopeExternal | ScopeAll.
Inductive SortBy := SortStars | SortContributions | SortAll | SortRecent.

Record Config := mkConfig {
  scope : Scope;
  sortBy : SortBy;
  includePrivate : bool;
  limit : Z;
  include : list string;
  exclude : list string;
  user : option string;
  starsLimit : option Z
}.

Definition DEFAULT_CONFIG : Config :=
  mkConfig ScopeExternal SortStars false 0 [] [] None (Some 20).

(** ** Projection pipeline *)

(** [new Set(names).has(x)]. *)
Definition has (names : list string) (x : string) : bool :=
  existsb (String.eqb x) names.

(** The callback of [repos.filter] in [filterRepos]. *)
Definition keeps (config : Config) (repo : Repository) : bool :=
  if has (exclude config) (fullName repo) then false
  else if has (include config) (fullName repo) then true
  else if match scope config with ScopeOwn => negb (isOwned repo) | _ => false end
       then false
  else if match scope config with ScopeExternal => isOwned repo | _ => false end
       then false
  else if negb (includePrivate config) && isPrivate repo then false
  else true.

(** One iteration of the [for (const fullName of config.include)] loop;
    [filteredSet] was built once, before the loop. *)
Definition pushIncluded (config : Config) (filteredSet : list string)
  (allRepos filtered : list Repository) (fullName' : string) : list Repository :=
  if negb (has filteredSet fullName') && negb (has (exclude config) fullName')
  then match List.find (fun r => String.eqb (fullName r) fullName') allRepos with
       | Some repo => filtered ++ [repo]
       | None => filtered
       end
  else filtered.

Definition filterRepos (repos : list Repository) (config : Config)
  (allRepos : list Repository) : list Repository :=
  let filtered := List.filter (keeps config) repos in
  let filteredSet := map fullName filtered in
  fold_left (pushIncluded config filteredSet allRepos) (include config) filtered.

(** [Array.prototype.sort] is stable: an element moves past its right
    neighbours only while the comparator is positive. *)
Fixpoint sortInsert {A} (compare : A -> A -> Z) (x : A) (sorted : list A) : list A :=
  match sorted with
  | [] => [x]
  | y :: rest =>
      if compare x y >? 0 then y :: sortInsert compare x rest else x :: sorted
  end.

Definition stableSort {A} (compare : A -> A -> Z) (l : list A) : list A :=
  fold_right (sortInsert compare) [] l.

Definition byPrCount (a b : Repository) : Z := prCount b - prCount a.

(** ** Memory cache and the single in-flight marker *)

Module Mem.
Record entry := mk {
  data : option (list Repository);
  fetchedAt : Z
}.
End Mem.

(** A started, not yet settled background call of [fetchAndCache]; the
    cache file is read when the call starts. *)
Record Task := mkTask {
  task_user : string;
  task_config : Config;
  task_loaded : Cache.t
}.

(** The module-level state, the cache file, and the background calls that
    have not settled yet. *)
Record Store := mkStore {
  memoryCache : gmap string Mem.entry;
  revalidatePromise : option Task;
  revalidateUser : option string;
  file : option Cache.t;
  inflight : list Task
}.

(** The three readings of the clock inside [fetchAndCache]. *)
Record Times := mkTimes {
  at_check : Z;
  at_save : Z;
  at_set : Z
}.

Record Fetched := mkFetched {
  fetched_repos : list Repository;
  fetched_cache : Cache.t;
  fetched_entry : Mem.entry
}.

Record Log := mkLog {
  pages : list (Z * Z);
  metadata : list string
}.

(** [config.starsLimit || 20]. *)
Definition budgetOf (config : Config) : Z :=
  match starsLimit config with
  | None => 20
  | Some k => if k =? 0 then 20 else k
  end.

(** The loop over [otherRepos]. *)
Definition backfill (cacheRepos : ReposMap.t) (repo : Repository) : Repository :=
  match ReposMap.get (fullName repo) cacheRepos with
  | Some cached =>
      mkRepository (name repo) (fullName repo) (url repo) (stars cached)
        (prCount repo) (isOwned repo) (isPrivate cached)
        (lastContributedAt repo)
  | None => repo
  end.

(** The part of [fetchAndCache] after the rollups are in hand. *)
Definition enrich (remote : Remote) (times : Times) (username : string)
  (config : Config) (cache : Cache.t) (repos : list Repository)
  : list string * Fetched :=
  let repos := stableSort byPrCount repos in
  let starsLimit := budgetOf config in
  let topRepos := Js.slice_to repos starsLimit in
  let otherRepos := Js.slice_from repos starsLimit in
  let '(log, (topRepos, cache)) := fetchStarsForRepos remote topRepos cache in
  let otherRepos := map (backfill (Cache.repos cache)) otherRepos in
  let repos := topRepos ++ otherRepos in
  (log, mkFetched repos (saveCache (at_save times) cache)
          (Mem.mk (Some repos) (at_set times))).

(** [fetchAndCache], given the cache that [loadCache] returned.  In the
    first branch the rollups are the cache's own objects; every cache that
    this program writes maps a key to an object of that full name, and for
    such a cache the in-place copies of the enricher assign each object its
    own fields. *)
Definition fetchAndCache (fuel : nat) (remote : Remote) (currentYear : Z)
  (times : Times) (username : string) (config : Config) (cache : Cache.t)
  : Log * Outcome Fetched :=
  if negb (isCacheStale (at_check times) cache)
     && String.eqb (Cache.username cache) username
     && (Z.of_nat (length (Cache.repos cache)) >? 0)
  then
    let '(log, fetched) :=
      enrich remote times username config cache
        (ReposMap.values (Cache.repos cache)) in
    (mkLog [] log, Ok fetched)
  else
    match fetchContributedRepos fuel remote username currentYear with
    | (searches, Ok repos) =>
        let cache :=
          Cache.mk username (Cache.repos cache) (Cache.fetchedAt cache) in
        let '(log, fetched) := enrich remote times username config cache repos in
        (mkLog searches log, Ok fetched)
    | (searches, Failed message) => (mkLog searches [], Failed message)
    | (searches, OutOfFuel) => (mkLog searches [], OutOfFuel)
    end.

(** What a finished [fetchAndCache] leaves behind: [saveCache] and
    [memoryCache.set]; a rejected one leaves nothing. *)
Definition commit (username : string) (out : Outcome Fetched) (st : Store) : Store :=
  match out with
  | Ok fetched =>
      mkStore (<[username := fetched_entry fetched]> (memoryCache st))
        (revalidatePromise st) (revalidateUser st)
        (Some (fetched_cache fetched)) (inflight st)
  | _ => st
  end.

(** ** The read API *)

Record CacheStats := mkCacheStats {
  fromCache : bool;
  isStale : bool;
  age : Z
}.

Definition NO_CACHE : CacheStats := mkCacheStats false false 0.

Module Reply.
Record t := mk {
  repos : list Repository;
  cache : CacheStats;
  user : string
}.
End Reply.

(** [config.user || await getAuthenticatedUser()], with [login] the
    authenticated user. *)
Definition identityOf (config : Config) (login : string) : string :=
  match user config with
  | Some u => if Js.truthy u then u else login
  | None => login
  end.

(** The environment of one call: remote, clock readings and fuel. *)
Record Env := mkEnv {
  env_fuel : nat;
  env_remote : Remote;
  env_login : string;
  env_year : Z;
  env_now : Z;
  env_times : Times
}.

(** [if (isStale && (!revalidatePromise || revalidateUser !== username))]
    and its body: the background call starts and is left unawaited. *)
Definition maybeRevalidate (isStale : bool) (username : string)
  (config : Config) (st : Store) : Store :=
  if isStale
     && (match revalidatePromise st with None => true | Some _ => false end
         || negb (bool_decide (revalidateUser st = Some username)))
  then
    let task := mkTask username config (loadCache (file st)) in
    mkStore (memoryCache st) (Some task) (Some username) (file st)
      (inflight st ++ [task])
  else st.

(** The [i]-th background call settles: it is no longer in flight, and a
    fulfilled one has saved the cache file and replaced the memory entry.
    Nothing in the program runs when [revalidatePromise] settles. *)
Definition settle (env : Env) (i : nat) (st : Store) : option Store :=
  match inflight st !! i with
  | Some task =>
      let '(_, out) :=
        fetchAndCache (env_fuel env) (env_remote env) (env_year env)
          (env_times env) (task_user task) (task_config task)
          (task_loaded task) in
      match out with
      | OutOfFuel => None
      | _ =>
          Some (commit (task_user task) out
                  (mkStore (memoryCache st) (revalidatePromise st)
                     (revalidateUser st) (file st) (delete i (inflight st))))
      end
  | None => None
  end.

(** The number of background calls in flight for one identity. *)
Definition inflightFor (username : string) (st : Store) : nat :=
  length (List.filter (fun t => String.eqb (task_user t) username) (inflight st)).

Section Engine.

(** [String.prototype.localeCompare] depends on the host's collation
    tables; it is a parameter of the development. *)
Variable localeCompare : string -> string -> Z.

(** The callback of [sorted.sort].  Only the sign of its result is read.
    The differences of stars and of PR counts have the sign of the exact
    difference; the combined score is a product of binary64 values and
    rounds above 2^53, which can turn two different exact scores into a tie
    and the reverse. *)
Definition comparator (config : Config) (a b : Repository) : Z :=
  match sortBy config with
  | SortStars => stars b - stars a
  | SortContributions => prCount b - prCount a
  | SortAll =>
      let scoreA := Number.mul (stars a) (Number.square (prCount a)) in
      let scoreB := Number.mul (stars b) (Number.square (prCount b)) in
      Number.sub scoreB scoreA
  | SortRecent => localeCompare (lastContributedAt b) (lastContributedAt a)
  end.

Definition sortRepos (repos : list Repository) (config : Config) : list Repository :=
  stableSort (comparator config) repos.

(** [filterRepos], [sortRepos] and the [limit] slice, as both branches of
    [getRepos] apply them. *)
Definition project (repos : list Repository) (config : Config) : list Repository :=
  let repos := filterRepos repos config repos in
  let repos := sortRepos repos config in
  if limit config >? 0 then Js.slice_to repos (limit config) else repos.

(** ** The read API: [getRepos] *)

Definition getRepos (env : Env) (config : Config) (st : Store)
  : Outcome Reply.t * Store :=
  let username := identityOf config (env_login env) in
  let now := env_now env in
  let cached := memoryCache st !! username in
  let isFresh :=
    match cached with
    | Some c => now - Mem.fetchedAt c <? CACHE_AGE_MS
    | None => false
    end in
  let isStale :=
    match cached with
    | Some c => now - Mem.fetchedAt c <? STALE_WHILE_REVALIDATE_MS
    | None => false
    end in
  let miss :=
    let '(_, out) :=
      fetchAndCache (env_fuel env) (env_remote env) (env_year env)
        (env_times env) username config (loadCache (file st)) in
    match out with
    | Ok fetched =>
        (Ok (Reply.mk (project (fetched_repos fetched) config) NO_CACHE username),
         commit username out st)
    | Failed message => (Failed message, st)
    | OutOfFuel => (OutOfFuel, st)
    end in
  match cached with
  | Some (Mem.mk (Some data) fetchedAt) =>
      let age := now - fetchedAt in
      let fromCache := isFresh || isStale in
      if fromCache then
        (Ok (Reply.mk (project data config)
               (mkCacheStats true (negb isFresh) age) username),
         maybeRevalidate isStale username config st)
      else miss
  | _ => miss
  end.

End Engine.

(** ** Vocabulary of the statements *)

(** The records of a sequence whose repository reference parses to [f]. *)
Definition matching (f : string) (records : list PullRequest) : list PullRequest :=
  List.filter (fun pr => bool_decide (parseRepoUrl (repository_url pr) = Some f)) records.

(** What the fold does to the entry of one repository, one matching record
    at a time. *)
Definition absorb (username f : string) (entry : option Repository)
  (pr : PullRequest) : option Repository :=
  Some (match entry with
        | Some existing => bump (created_at pr) existing
        | None => newRollup username f (created_at pr)
        end).

(** [t] is a greatest element of [ts] in the lexicographic order. *)
Definition greatest (t : string) (ts : list string) : Prop :=
  In t ts /\ forall t', In t' ts -> ts_le t' t.

(** A request of the log that the remote answers with an error is the one
    the outcome reports. *)
Definition reportsFailures {A} (remote : Remote) (username : string)
  (log : list (Z * Z)) (out : Outcome A) : Prop :=
  forall year page message,
    In (year, page) log ->
    search remote username year page = SearchError message ->
    out = Failed message.

(** The hot set of [fetchAndCache]: the first [starsLimit] rollups after the
    sort by [prCount]. *)
Definition hotSet (config : Config) (repos : list Repository) : list Repository :=
  Js.slice_to (stableSort byPrCount repos) (budgetOf config).

(** What the enricher leaves in one hot-set rollup: the cached fields when
    the cache had an entry on entry, the fetched ones otherwise. *)
Definition enriched (remote : Remote) (cache0 : ReposMap.t) (r : Repository)
  : Repository :=
  match ReposMap.get (fullName r) cache0 with
  | Some cached => useCached cached r
  | None => useFetched (fetchRepoData remote (fullName r)) r
  end.

(** Whether the single marker currently names [username]. *)
Definition markerNames (username : string) (st : Store) : bool :=
  match revalidatePromise st with
  | Some _ => bool_decide (revalidateUser st = Some username)
  | None => false
  end.

(** ** Concrete data for the examples *)

Module Ex.

(** A code-unit collation, to run [sortRepos] in the examples. *)
Definition collate (a b : string) : Z :=
  match String.compare a b with Lt => -1 | Eq => 0 | Gt => 1 end.

Definition pr (path created : string) : PullRequest :=
  mkPullRequest ("https://api.github.com/repos/" +:+ path) created.

Definition page2024 : list PullRequest :=
  [ pr "alice/x" "2024-02-01T10:00:00Z";
    pr "bob/y" "2024-03-05T08:30:00Z";
    mkPullRequest "https://example.org/alice/x" "2024-04-01T00:00:00Z";
    pr "alice/x" "2024-01-15T09:00:00Z" ].

Definition metadataOf (f : string) : RepoResponse :=
  if String.eqb f "alice/x" then RepoOk (mkRepoBody (Some 5) None)
  else if String.eqb f "bob/y" then RepoOk (mkRepoBody (Some 50) (Some false))
  else RepoError "GitHub API error: 404 Not Found".

(** Answers 2024 with one short page and every other year with none. *)
Definition remote : Remote :=
  mkRemote
    (fun _ year page =>
       if (year =? 2024) && (page =? 1) then SearchBody (Some page2024)
       else SearchBody (Some []))
    metadataOf.

(** As [remote], but the first page of 2023 is refused. *)
Definition flaky : Remote :=
  mkRemote
    (fun _ year page =>
       if (year =? 2024) && (page =? 1) then SearchBody (Some page2024)
       else if (year =? 2023) && (page =? 1)
            then SearchError "GitHub API error: 502 Bad Gateway"
       else SearchBody (Some []))
    metadataOf.

Definition times : Times := mkTimes 1000 2000 3000.

Definition aliceAll : Config :=
  mkConfig ScopeAll SortStars false 0 [] [] (Some "alice") (Some 20).

Definition bobAll : Config :=
  mkConfig ScopeAll SortStars false 0 [] [] (Some "bob") (Some 20).

Definition zeroBudget : Config :=
  mkConfig ScopeAll SortStars false 0 [] [] (Some "alice") (Some 0).

(** Freshly aggregated rollup of bob/y, and an older durable-cache entry
    for it. *)
Definition bobFresh : Repository :=
  mkRepository "y" "bob/y" "https://github.com/bob/y" 0 3 false false
    "2024-03-05T08:30:00Z".

Definition bobCached : Repository :=
  mkRepository "y" "bob/y" "https://github.com/bob/y" 7 1 true true
    "2021-06-01T00:00:00Z".

Definition oldCache : Cache.t :=
  Cache.mk "carol" [("bob/y", bobCached)] (Some 0).

Definition rollup (i : nat) : Repository :=
  mkRepository ("r" +:+ pretty i) ("org/r" +:+ pretty i)
    ("https://github.com/org/r" +:+ pretty i) 0 (Z.of_nat i) false false
    "2024-01-01T00:00:00Z".

Definition rollups (n : nat) : list Repository := map rollup (seq 1 n).

(** A cache that knows the most active of the 500 rollups. *)
Definition knows500 : Cache.t :=
  Cache.mk "carol" [("org/r500", rollup 500)] (Some 0).

(** Filter examples: [x] is both included and excluded, [y] is included
    only, external and private. *)
Definition x : Repository :=
  mkRepository "x" "alice/x" "https://github.com/alice/x" 5 2 true false
    "2024-02-01T10:00:00Z".

Definition y : Repository :=
  mkRepository "y" "bob/y" "https://github.com/bob/y" 50 1 false true
    "2024-03-05T08:30:00Z".

Definition ownOnly : Config :=
  mkConfig ScopeOwn SortStars false 0 ["alice/x"; "bob/y"] ["alice/x"] None (Some 20).

(** Memory cache holding a snapshot for alice and one for bob, both
    written at instant 0; no marker, nothing in flight. *)
Definition snapshot : gmap string Mem.entry :=
  <["bob" := Mem.mk (Some [y]) 0]> (<["alice" := Mem.mk (Some [x]) 0]> ∅).

Definition idle : Store := mkStore snapshot None None None [].

Definition envAt (now : Z) : Env := mkEnv 4 remote "alice" 2024 now times.

Definition flakyAt (now : Z) : Env := mkEnv 4 flaky "alice" 2024 now times.

End Ex.


(** ** Further vocabulary *)

(** Whether character [c] occurs in [s]. *)
Fixpoint contains (c : ascii) (s : string) : bool :=
  match s with
  | EmptyString => false
  | String c' s' => Ascii.eqb c' c || contains c s'
  end.

(** Whether the reference of a record parses at all. *)
Definition parseable (pr : PullRequest) : bool :=
  match parseRepoUrl (repository_url pr) with Some _ => true | None => false end.

(** [repos.reduce((sum, r) => sum + r.stars, 0)] and
    [repos.reduce((sum, r) => sum + r.prCount, 0)], the totals that the CLI
    and both server routes report. *)
Definition totalStars (repos : list Repository) : Z :=
  fold_left (fun sum r => sum + stars r) repos 0.

Definition totalPRs (repos : list Repository) : Z :=
  fold_left (fun sum r => sum + prCount r) repos 0.

(** A map whose keys are distinct and are the full names of their values. *)
Definition wellKeyed (m : ReposMap.t) : Prop :=
  List.NoDup (map fst m) /\ Forall (fun kv => fullName (snd kv) = fst kv) m.

(** What aggregation alone fixes in a rollup of [username]. *)
Definition asAggregated (username : string) (r : Repository) : Prop :=
  stars r = 0 /\ isPrivate r = false
  /\ url r = "https://github.com/" +:+ fullName r
  /\ isOwned r = Js.startsWith (fullName r) (username +:+ "/")
  /\ 1 <= prCount r.

(** The order in which requests are made: later years first, and within a
    year the pages in increasing order. *)
Definition requestedBefore (a b : Z * Z) : Prop :=
  fst b < fst a \/ (fst b = fst a /\ snd a < snd b).

(** A page that came back full, so that the loop asks for the next one. *)
Definition fullPage (remote : Remote) (username : string) (request : Z * Z) : Prop :=
  perPage <= Z.of_nat (length (itemsOf remote username request)).

(** The ranking of [fetchAndCache] and what lies beyond the hot set. *)
Definition ranked (repos : list Repository) : list Repository :=
  stableSort byPrCount repos.

Definition coldSet (config : Config) (repos : list Repository) : list Repository :=
  Js.slice_from (ranked repos) (budgetOf config).

(** The fields that no enrichment step assigns. *)
Definition identityFields (r : Repository) : string * string * string * Z :=
  (name r, fullName r, url r, prCount r).


(** What the scope and visibility rules of [filterRepos] allow. *)
Definition scopeAllows (config : Config) (r : Repository) : Prop :=
  match scope config with
  | ScopeOwn => isOwned r = true
  | ScopeExternal => isOwned r = false
  | ScopeAll => True
  end.

Definition visibilityAllows (config : Config) (r : Repository) : Prop :=
  includePrivate config = true \/ isPrivate r = false.

(** The number by which [sortRepos] ranks, for the three numeric orders. *)
Definition sortKey (order : SortBy) (r : Repository) : Z :=
  match order with
  | SortStars => stars r
  | SortContributions => prCount r
  | SortAll => stars r * (prCount r ^ 2)
  | SortRecent => 0
  end.

(** The largest magnitude up to which binary64 represents every integer. *)
Definition maxExact : Z := 9007199254740992.

(** A rollup on which the comparator's arithmetic is exact: stars, PR
    count, its square and the combined score are non-negative integers of
    at most 2^53, so that neither the products nor the difference of two
    scores round. *)
Definition exactRange (r : Repository) : Prop :=
  0 <= stars r <= maxExact
  /\ 0 <= prCount r
  /\ prCount r ^ 2 <= maxExact
  /\ stars r * prCount r ^ 2 <= maxExact.

(** ** Histories of the process *)

(** The store of a process that has just started. *)
Definition started (cacheFile : option Cache.t) : Store :=
  mkStore ∅ None None cacheFile [].

(** What can happen: a call of [getRepos], or the settling of the [i]-th
    background call in flight. *)
Inductive Event :=
| Read (env : Env) (config : Config)
| Settle (env : Env) (i : nat).

(** The identity that an event reads for, if it is a read. *)
Definition readsFor (username : string) (e : Event) : Prop :=
  match e with
  | Read env config => identityOf config (env_login env) = username
  | Settle _ _ => True
  end.

(** Every memory entry carries data. *)
Definition populated (st : Store) : Prop :=
  forall username entry,
    memoryCache st !! username = Some entry -> Mem.data entry <> None.

(** With one identity in use: at most one background call is in flight, it
    is for that identity, and while it is in flight the marker names it. *)
Definition singleFlight (username : string) (st : Store) : Prop :=
  (length (inflight st) <= 1)%nat
  /\ Forall (fun t => task_user t = username) (inflight st)
  /\ (inflight st <> [] -> markerNames username st = true).

Section History.

Variable localeCompare : string -> string -> Z.

Definition step (st : Store) (e : Event) : Store :=
  match e with
  | Read env config => snd (getRepos localeCompare env config st)
  | Settle env i => default st (settle env i st)
  end.

Definition run (events : list Event) (st : Store) : Store :=
  fold_left step events st.

End History.

(** ** The server's side of a read ([server.ts]) *)

Section Server.

(** [String.prototype.trim] and [parseInt(s, 10)] are the host's; [parseInt]
    yields [None] for NaN. *)
Variable trim : string -> string.
Variable parseInt : string -> option Z.

(** [url.searchParams.get(key)]: the first value given for the key. *)
Fixpoint searchParam (key : string) (query : list (string * string)) : option string :=
  match query with
  | [] => None
  | (k, v) :: rest => if String.eqb k key then Some v else searchParam key rest
  end.

(** [value.split(",").map(r => r.trim()).filter(Boolean)]. *)
Definition nameList (value : string) : list string :=
  List.filter Js.truthy (map trim (Js.split "," value)).

(** The six blocks of [parseConfigFromUrl], each given the value that
    [url.searchParams.get] returned for its parameter. *)
Definition withScope (param : option string) (config : Config) : Config :=
  match param with
  | Some value =>
      if String.eqb value "own"
      then mkConfig ScopeOwn (sortBy config) (includePrivate config) (limit config)
             (include config) (exclude config) (user config) (starsLimit config)
      else if String.eqb value "external"
      then mkConfig ScopeExternal (sortBy config) (includePrivate config)
             (limit config) (include config) (exclude config) (user config)
             (starsLimit config)
      else if String.eqb value "all"
      then mkConfig ScopeAll (sortBy config) (includePrivate config) (limit config)
             (include config) (exclude config) (user config) (starsLimit config)
      else config
  | None => config
  end.

Definition sortOf (value : string) : option SortBy :=
  if String.eqb value "stars" then Some SortStars
  else if String.eqb value "contributions" then Some SortContributions
  else if String.eqb value "all" then Some SortAll
  else if String.eqb value "recent" then Some SortRecent
  else None.

Definition withSort (param : option string) (config : Config) : Config :=
  match param with
  | Some value =>
      match sortOf value with
      | Some order =>
          mkConfig (scope config) order (includePrivate config) (limit config)
            (include config) (exclude config) (user config) (starsLimit config)
      | None => config
      end
  | None => config
  end.

(** [parseInt(limit, 10) || 0]. *)
Definition limitOf (value : string) : Z :=
  match parseInt value with
  | Some n => if n =? 0 then 0 else n
  | None => 0
  end.

Definition withLimit (param : option string) (config : Config) : Config :=
  match param with
  | Some value =>
      if Js.truthy value
      then mkConfig (scope config) (sortBy config) (includePrivate config)
             (limitOf value) (include config) (exclude config) (user config)
             (starsLimit config)
      else config
  | None => config
  end.

Definition withInclude (param : option string) (config : Config) : Config :=
  match param with
  | Some value =>
      if Js.truthy value
      then mkConfig (scope config) (sortBy config) (includePrivate config)
             (limit config) (nameList value) (exclude config) (user config)
             (starsLimit config)
      else config
  | None => config
  end.

Definition withExclude (param : option string) (config : Config) : Config :=
  match param with
  | Some value =>
      if Js.truthy value
      then mkConfig (scope config) (sortBy config) (includePrivate config)
             (limit config) (include config) (nameList value) (user config)
             (starsLimit config)
      else config
  | None => config
  end.

Definition withPrivate (param : option string) (config : Config) : Config :=
  match param with
  | Some value =>
      if String.eqb value "true"
      then mkConfig (scope config) (sortBy config) true (limit config)
             (include config) (exclude config) (user config) (starsLimit config)
      else config
  | None => config
  end.

Definition parseConfigFromUrl (query : list (string * string)) : Config :=
  let config := DEFAULT_CONFIG in
  let config := withScope (searchParam "scope" query) config in
  let config := withSort (searchParam "sort" query) config in
  let config := withLimit (searchParam "limit" query) config in
  let config := withInclude (searchParam "include" query) config in
  let config := withExclude (searchParam "exclude" query) config in
  withPrivate (searchParam "private" query) config.

End Server.

(** What every configuration built by the server satisfies. *)
Definition fromServer (config : Config) : Prop :=
  user config = None /\ starsLimit config = Some 20
  /\ Forall (fun f => f <> "") (include config)
  /\ Forall (fun f => f <> "") (exclude config).

(** The two response headers that both routes set from the cache status. *)
Definition getCacheControl (isStale : bool) : string :=
  if isStale then "public, max-age=60, stale-while-revalidate=86400"
  else "public, max-age=60, stale-while-revalidate=86400".

Definition xCache (cache : CacheStats) : string :=
  if fromCache cache then (if isStale cache then "STALE" else "HIT") else "MISS".

(** More concrete data: a durable cache written for alice at instant 0 that
    holds both rollups of the filter examples. *)
Module Sample.

Definition durable : Cache.t :=
  Cache.mk "alice" [("alice/x", Ex.x); ("bob/y", Ex.y)] (Some 0).

(** A remote that refuses every request. *)
Definition down : Remote :=
  mkRemote (fun _ _ _ => SearchError "GitHub API error: 500 Internal Server Error")
    (fun _ => RepoError "GitHub API error: 500 Internal Server Error").

(** One identity reading through a day: a first read, a stale read, another
    one, the revalidation settling, and a read after the entry has expired. *)
Definition day : list Event :=
  [ Read (Ex.envAt 0) Ex.aliceAll;
    Read (Ex.envAt 100000) Ex.aliceAll;
    Read (Ex.envAt 200000) Ex.aliceAll;
    Settle (Ex.envAt 300000) 0;
    Read (Ex.envAt 90000000) Ex.aliceAll ].

(** A budget of one rollup. *)
Definition budgetOne : Config :=
  mkConfig ScopeAll SortStars false 0 [] [] (Some "alice") (Some 1).

End Sample.

(** * Properties *)

(** ** Strings and the ordered map *)

Lemma append_slash_truthy (a b : string) : Js.truthy (a +:+ "/" +:+ b) = true.
Proof. destruct a; reflexivity. Qed.

Lemma parseRepoUrl_truthy (url f : string) :
  parseRepoUrl url = Some f -> Js.truthy f = true.
Proof.
  unfold parseRepoUrl. destruct (negb (isValidRepoUrl url)); [discriminate|].
  intros [= <-]. apply append_slash_truthy.
Qed.

Lemma ts_le_refl (a : string) : ts_le a a.
Proof.
  unfold ts_le.
  assert (H : String.compare a a = Eq)
    by (apply OrderedTypeEx.String_as_OT.cmp_eq; reflexivity).
  rewrite H. discriminate.
Qed.

Lemma ts_le_cases (a b : string) :
  ts_le a b <-> a = b \/ OrderedTypeEx.String_as_OT.lt a b.
Proof.
  unfold ts_le. rewrite <- OrderedTypeEx.String_as_OT.cmp_lt.
  rewrite <- OrderedTypeEx.String_as_OT.cmp_eq.
  unfold OrderedTypeEx.String_as_OT.cmp.
  destruct (String.compare a b); split; intros H; auto; try discriminate;
    try (destruct H; discriminate); congruence.
Qed.

Lemma ts_le_trans (a b c : string) : ts_le a b -> ts_le b c -> ts_le a c.
Proof.
  rewrite !ts_le_cases. intros [-> | Hab] [-> | Hbc]; auto.
  right. eapply OrderedTypeEx.String_as_OT.lt_trans; eauto.
Qed.

Lemma gt_false_le (a b : string) : Js.gt a b = false -> ts_le a b.
Proof. unfold Js.gt, ts_le. destruct (String.compare a b); congruence. Qed.

Lemma gt_true_le (a b : string) : Js.gt a b = true -> ts_le b a.
Proof.
  unfold Js.gt, ts_le. rewrite (String.compare_antisym b a).
  destruct (String.compare a b); simpl; congruence.
Qed.

Module ReposMapFacts.

Lemma get_set_eq k v m : ReposMap.get k (ReposMap.set k v m) = Some v.
Proof.
  induction m as [| [k' v'] m IH]; simpl.
  - now rewrite String.eqb_refl.
  - destruct (String.eqb k' k) eqn:E; simpl; rewrite E; auto.
Qed.

Lemma get_set_ne k k' v m :
  k <> k' -> ReposMap.get k' (ReposMap.set k v m) = ReposMap.get k' m.
Proof.
  intros Hne. induction m as [| [k0 v0] m IH]; simpl.
  - destruct (String.eqb k k') eqn:E; auto.
    apply String.eqb_eq in E. contradiction.
  - destruct (String.eqb k0 k) eqn:E; simpl.
    + apply String.eqb_eq in E. subst k0.
      destruct (String.eqb k k') eqn:E'; auto.
      apply String.eqb_eq in E'. contradiction.
    + now rewrite IH.
Qed.

End ReposMapFacts.

(** ** Aggregation: what the fold leaves at one key *)

Lemma get_foldPR (username f : string) (m : ReposMap.t) (pr : PullRequest) :
  ReposMap.get f (foldPR username m pr) =
  if bool_decide (parseRepoUrl (repository_url pr) = Some f)
  then absorb username f (ReposMap.get f m) pr
  else ReposMap.get f m.
Proof.
  unfold foldPR, absorb.
  destruct (parseRepoUrl (repository_url pr)) as [g|] eqn:Hparse.
  - rewrite (parseRepoUrl_truthy _ _ Hparse).
    case_bool_decide as Hg.
    + injection Hg as ->.
      destruct (ReposMap.get f m); apply ReposMapFacts.get_set_eq.
    + assert (g <> f) by congruence.
      destruct (ReposMap.get g m); now apply ReposMapFacts.get_set_ne.
  - now rewrite bool_decide_eq_false_2.
Qed.

Lemma get_foldItems (username f : string) (records : list PullRequest) (m : ReposMap.t) :
  ReposMap.get f (foldItems username records m) =
  fold_left (absorb username f) (matching f records) (ReposMap.get f m).
Proof.
  unfold foldItems. revert m.
  induction records as [| pr records IH]; intros m; simpl; [reflexivity|].
  rewrite IH, get_foldPR.
  destruct (bool_decide (parseRepoUrl (repository_url pr) = Some f)); reflexivity.
Qed.

(** A record whose reference does not parse leaves the map untouched. *)
Lemma foldPR_unparseable (username : string) (m : ReposMap.t) (pr : PullRequest) :
  parseRepoUrl (repository_url pr) = None -> foldPR username m pr = m.
Proof. unfold foldPR. now intros ->. Qed.

Lemma bump_fullName c e : fullName (bump c e) = fullName e.
Proof. unfold bump; simpl. now destruct (Js.gt c (lastContributedAt e)). Qed.

Lemma bump_prCount c e : prCount (bump c e) = prCount e + 1.
Proof. unfold bump; simpl. now destruct (Js.gt c (lastContributedAt e)). Qed.

Lemma bump_last c e :
  lastContributedAt (bump c e) =
  if Js.gt c (lastContributedAt e) then c else lastContributedAt e.
Proof. unfold bump; simpl. now destruct (Js.gt c (lastContributedAt e)). Qed.

Lemma bump_last_bounds c e :
  ts_le (lastContributedAt e) (lastContributedAt (bump c e))
  /\ ts_le c (lastContributedAt (bump c e)).
Proof.
  rewrite bump_last. destruct (Js.gt c (lastContributedAt e)) eqn:E; split.
  - now apply gt_true_le.
  - apply ts_le_refl.
  - apply ts_le_refl.
  - now apply gt_false_le.
Qed.

Lemma absorb_existing (username f : string) (ms : list PullRequest) (e : Repository) :
  exists r,
    fold_left (absorb username f) ms (Some e) = Some r
    /\ fullName r = fullName e
    /\ prCount r = prCount e + Z.of_nat (length ms)
    /\ ts_le (lastContributedAt e) (lastContributedAt r)
    /\ (forall t, In t (map created_at ms) -> ts_le t (lastContributedAt r))
    /\ (lastContributedAt r = lastContributedAt e
        \/ In (lastContributedAt r) (map created_at ms)).
Proof.
  revert e. induction ms as [| p ms IH]; intros e.
  - exists e. simpl. repeat split; auto using ts_le_refl; try lia; try (now intros t []).
  - destruct (IH (bump (created_at p) e)) as (r & Hr & Hname & Hcount & Hle & Hall & Hin).
    destruct (bump_last_bounds (created_at p) e) as [Hold Hnew].
    exists r. cbn [fold_left absorb]. split; [exact Hr|].
    rewrite bump_fullName in Hname. rewrite bump_prCount in Hcount.
    repeat split.
    + exact Hname.
    + cbn [length]. lia.
    + eapply ts_le_trans; eauto.
    + cbn [map]. intros t [<- | Ht]; [eapply ts_le_trans; eauto | auto].
    + cbn [map]. destruct Hin as [Hin | Hin]; [| right; now right].
      rewrite Hin, bump_last.
      destruct (Js.gt (created_at p) (lastContributedAt e)); [right; now left | now left].
Qed.

Lemma absorb_first (username f : string) (p : PullRequest) (ms : list PullRequest) :
  fold_left (absorb username f) (p :: ms) None =
  fold_left (absorb username f) ms (Some (newRollup username f (created_at p))).
Proof. reflexivity. Qed.

(** C5: after folding any sequence of PR records into an empty map, the
    rollup stored for a repository has that repository's full name and a
    [prCount] equal to the number of records whose reference parses to it; a
    repository that no record parses to has no rollup, so a record whose
    reference does not parse is counted nowhere. *)
Theorem prCount_counts_parseable_records (username : string)
  (records : list PullRequest) (f : string) :
  let n := length (matching f records) in
  match ReposMap.get f (foldItems username records []) with
  | Some r => fullName r = f /\ prCount r = Z.of_nat n /\ (0 < n)%nat
  | None => n = 0%nat
  end.
Proof.
  cbv zeta. rewrite get_foldItems. cbn [ReposMap.get].
  destruct (matching f records) as [| p ms]; [reflexivity|].
  rewrite absorb_first.
  destruct (absorb_existing username f ms (newRollup username f (created_at p)))
    as (r & -> & Hname & Hcount & _).
  cbn in Hname, Hcount. cbn [length]. repeat split; [exact Hname | lia | lia].
Qed.

(** C6: when at least one record of the sequence parses to a repository, its
    rollup's [lastContributedAt] is one of those records' creation times and
    is lexicographically at least each of them; and folding one more record
    never lowers it. *)
Theorem lastContributedAt_is_lexicographic_max (username : string)
  (records : list PullRequest) (f : string) (p : PullRequest)
  (ps : list PullRequest) (next : PullRequest) :
  matching f records = p :: ps ->
  exists r r',
    ReposMap.get f (foldItems username records []) = Some r
    /\ greatest (lastContributedAt r) (map created_at (p :: ps))
    /\ ReposMap.get f (foldPR username (foldItems username records []) next) = Some r'
    /\ ts_le (lastContributedAt r) (lastContributedAt r').
Proof.
  intros Hm.
  assert (Hget := get_foldItems username f records []).
  rewrite Hm in Hget. cbn [ReposMap.get] in Hget. rewrite absorb_first in Hget.
  destruct (absorb_existing username f ps (newRollup username f (created_at p)))
    as (r & Hr & _ & _ & Hle & Hall & Hin).
  rewrite Hr in Hget. cbn [lastContributedAt newRollup] in Hle, Hin.
  assert (Hnext : exists r', ReposMap.get f (foldPR username (foldItems username records []) next) = Some r'
                            /\ ts_le (lastContributedAt r) (lastContributedAt r')).
  { rewrite get_foldPR, Hget. case_bool_decide.
    - eexists; split; [reflexivity|]. apply bump_last_bounds.
    - eexists; split; [reflexivity|]. apply ts_le_refl. }
  destruct Hnext as (r' & Hr' & Hmono).
  exists r, r'. repeat split; auto.
  - cbn [map]. destruct Hin as [-> | Hin]; [now left | now right].
  - cbn [map]. intros t [<- | Ht]; auto.
Qed.

(** ** Aggregation: pages, years and failures *)

Lemma foldItems_app (username : string) (a b : list PullRequest) (m : ReposMap.t) :
  foldItems username (a ++ b) m = foldItems username b (foldItems username a m).
Proof. unfold foldItems. apply fold_left_app. Qed.

Lemma fetchPRsForYear_from_spec (fuel : nat) (remote : Remote) (username : string)
  (year page total : Z) (m : ReposMap.t) :
  let '(log, out) := fetchPRsForYear_from fuel remote username year page total m in
  reportsFailures remote username log out
  /\ forall total' m', out = Ok (total', m') ->
       m' = foldItems username (flat_map (itemsOf remote username) log) m.
Proof.
  revert page total m. induction fuel as [| fuel IH]; intros page total m; simpl.
  - split; [intros y p msg [] | discriminate].
  - destruct (search remote username year page) as [msg | body] eqn:Hsearch.
    + split; [| discriminate].
      intros y p msg' [[= <- <-] | []] Hs. congruence.
    + assert (Hitems : itemsOf remote username (year, page) = default [] body)
        by (unfold itemsOf; simpl; now rewrite Hsearch).
      destruct (Z.of_nat (length (default [] body)) =? 0) eqn:Hzero.
      * split.
        -- intros y p msg' [[= <- <-] | []] Hs. congruence.
        -- intros t m' [= <- <-]. simpl. rewrite Hitems, app_nil_r.
           destruct (default [] body); [reflexivity | simpl in Hzero; lia].
      * destruct (Z.of_nat (length (default [] body)) <? perPage).
        -- split.
           ++ intros y p msg' [[= <- <-] | []] Hs. congruence.
           ++ intros t m' [= <- <-]. simpl. now rewrite Hitems, app_nil_r.
        -- specialize (IH (page + 1) (total + Z.of_nat (length (default [] body)))
                         (foldItems username (default [] body) m)).
           destruct (fetchPRsForYear_from fuel remote username year (page + 1) _ _)
             as [log out].
           destruct IH as [Hfail Hok]. split.
           ++ intros y p msg' [[= <- <-] | Hin] Hs; [congruence | eauto].
           ++ intros t m' Hout. simpl. rewrite Hitems, foldItems_app. eauto.
Qed.

Lemma fetchYears_spec (fuel : nat) (remote : Remote) (username : string)
  (n : nat) (year : Z) (m : ReposMap.t) :
  let '(log, out) := fetchYears fuel remote username n year m in
  reportsFailures remote username log out
  /\ forall m', out = Ok m' ->
       m' = foldItems username (flat_map (itemsOf remote username) log) m.
Proof.
  revert year m. induction n as [| n IH]; intros year m; simpl.
  - split; [intros y p msg [] | now intros m' [= <-]].
  - unfold fetchPRsForYear.
    pose proof (fetchPRsForYear_from_spec fuel remote username year 1 0 m) as Hyear.
    destruct (fetchPRsForYear_from fuel remote username year 1 0 m) as [log out].
    destruct Hyear as [Hfail Hok].
    destruct out as [[count m1] | msg |].
    + specialize (IH (year - 1) m1).
      destruct (fetchYears fuel remote username n (year - 1) m1) as [log' out'].
      destruct IH as [Hfail' Hok']. split.
      * intros y p msg Hin Hs. apply in_app_or in Hin as [Hin | Hin]; [| eauto].
        specialize (Hfail y p msg Hin Hs). discriminate.
      * intros m' Hout. rewrite flat_map_app, foldItems_app.
        rewrite <- (Hok count m1 eq_refl). eauto.
    + split; [| discriminate].
      intros y p msg' Hin Hs. specialize (Hfail y p msg' Hin Hs). congruence.
    + split; [| discriminate].
      intros y p msg' Hin Hs. specialize (Hfail y p msg' Hin Hs). discriminate.
Qed.

(** The rollups that a successful aggregation returns are the fold of the
    items of the pages it fetched, in the order it fetched them. *)
Lemma fetchContributedRepos_folds (fuel : nat) (remote : Remote)
  (username : string) (currentYear : Z) (log : list (Z * Z))
  (repos : list Repository) :
  fetchContributedRepos fuel remote username currentYear = (log, Ok repos) ->
  repos = ReposMap.values
            (foldItems username (flat_map (itemsOf remote username) log) []).
Proof.
  unfold fetchContributedRepos.
  pose proof (fetchYears_spec fuel remote username
                (Z.to_nat (currentYear - startYear + 1)) currentYear []) as H.
  destruct (fetchYears _ _ _ _ _ _) as [log' out]. destruct H as [_ Hok].
  destruct out; intros [= <- <-]. now rewrite <- (Hok _ eq_refl).
Qed.

Lemma fetchContributedRepos_reports (fuel : nat) (remote : Remote)
  (username : string) (currentYear : Z) :
  reportsFailures remote username
    (fst (fetchContributedRepos fuel remote username currentYear))
    (snd (fetchContributedRepos fuel remote username currentYear)).
Proof.
  unfold fetchContributedRepos.
  pose proof (fetchYears_spec fuel remote username
                (Z.to_nat (currentYear - startYear + 1)) currentYear []) as H.
  destruct (fetchYears _ _ _ _ _ _) as [log out]. destruct H as [Hfail _].
  intros y p msg Hin Hs. specialize (Hfail y p msg).
  destruct out; simpl in *; specialize (Hfail Hin Hs); congruence.
Qed.

(** Fuel only bounds the page loop of the model: a run that finished
    finishes with the same log and outcome on any larger fuel. *)
Lemma fetchPRsForYear_from_more_fuel (fuel : nat) (remote : Remote)
  (username : string) (year page total : Z) (m : ReposMap.t) :
  snd (fetchPRsForYear_from fuel remote username year page total m) <> OutOfFuel ->
  fetchPRsForYear_from (S fuel) remote username year page total m
  = fetchPRsForYear_from fuel remote username year page total m.
Proof.
  revert page total m. induction fuel as [| fuel IH]; intros page total m.
  - simpl. congruence.
  - intros Hdone. simpl in Hdone |- *.
    destruct (search remote username year page) as [msg | body]; [reflexivity|].
    destruct (Z.of_nat (length (default [] body)) =? 0); [reflexivity|].
    destruct (Z.of_nat (length (default [] body)) <? perPage); [reflexivity|].
    specialize (IH (page + 1) (total + Z.of_nat (length (default [] body)))
                  (foldItems username (default [] body) m)).
    simpl in IH.
    destruct (fetchPRsForYear_from fuel remote username year (page + 1) _ _)
      as [log out] eqn:E.
    simpl in Hdone. rewrite IH; [reflexivity | exact Hdone].
Qed.

Lemma fetchYears_more_fuel (fuel : nat) (remote : Remote) (username : string)
  (n : nat) (year : Z) (m : ReposMap.t) :
  snd (fetchYears fuel remote username n year m) <> OutOfFuel ->
  fetchYears (S fuel) remote username n year m
  = fetchYears fuel remote username n year m.
Proof.
  revert year m. induction n as [| n IH]; intros year m; [reflexivity|].
  cbn [fetchYears]. unfold fetchPRsForYear. intros Hdone.
  pose proof (fetchPRsForYear_from_more_fuel fuel remote username year 1 0 m) as Hy.
  destruct (fetchPRsForYear_from fuel remote username year 1 0 m)
    as [log [[count m1] | msg |]] eqn:E; cbn [snd] in *.
  - rewrite Hy by discriminate.
    specialize (IH (year - 1) m1).
    destruct (fetchYears fuel remote username n (year - 1) m1) as [log' out'] eqn:E'.
    cbn [snd] in *. rewrite IH; [reflexivity | exact Hdone].
  - rewrite Hy by discriminate. reflexivity.
  - congruence.
Qed.

(** C9: when a page request made by the aggregation inside [fetchAndCache]
    is answered with an error, [fetchContributedRepos] rejects with that
    error, so does [fetchAndCache], and neither cache tier is written: no
    rollup of the pages fetched so far reaches a caller. *)
Theorem page_failure_aborts_aggregation (fuel : nat) (remote : Remote)
  (currentYear : Z) (times : Times) (username : string) (config : Config)
  (cache : Cache.t) (st : Store) (year page : Z) (message : string) :
  In (year, page)
     (pages (fst (fetchAndCache fuel remote currentYear times username config cache))) ->
  search remote username year page = SearchError message ->
  snd (fetchContributedRepos fuel remote username currentYear) = Failed message
  /\ snd (fetchAndCache fuel remote currentYear times username config cache)
     = Failed message
  /\ commit username
       (snd (fetchAndCache fuel remote currentYear times username config cache)) st
     = st.
Proof.
  unfold fetchAndCache.
  destruct (negb (isCacheStale (at_check times) cache)
            && String.eqb (Cache.username cache) username
            && (Z.of_nat (length (Cache.repos cache)) >? 0)).
  - destruct (enrich _ _ _ _ _ _) as [log fetched]. simpl. intros [].
  - pose proof (fetchContributedRepos_reports fuel remote username currentYear
                  year page message) as Hfail.
    destruct (fetchContributedRepos fuel remote username currentYear)
      as [searches out]. simpl in Hfail.
    intros Hin Hs.
    assert (Hout : out = Failed message).
    { apply Hfail; [| exact Hs].
      destruct out as [repos | msg |]; [| exact Hin | exact Hin].
      destruct (enrich _ _ _ _ _ _) as [log fetched]. exact Hin. }
    subst out. simpl. auto.
Qed.

(** ** Enrichment *)

Lemma useCached_fullName c r : fullName (useCached c r) = fullName r.
Proof. reflexivity. Qed.

Lemma isCached_get (c0 : ReposMap.t) (r : Repository) :
  isCached c0 r = match ReposMap.get (fullName r) c0 with Some _ => true | None => false end.
Proof. reflexivity. Qed.

Lemma fetchMissing_spec (remote : Remote) (c0 : ReposMap.t)
  (rs : list Repository) (c : ReposMap.t) :
  fst (fetchMissing remote c0 rs c)
    = map fullName (List.filter (fun r => negb (isCached c0 r)) rs)
  /\ fst (snd (fetchMissing remote c0 rs c))
    = map (fun r => if isCached c0 r then r
                    else useFetched (fetchRepoData remote (fullName r)) r) rs.
Proof.
  revert c. induction rs as [| r rs IH]; intros c; simpl; [auto|].
  destruct (isCached c0 r); simpl.
  - specialize (IH c). destruct (fetchMissing remote c0 rs c) as [log [rs' c']].
    simpl in *. destruct IH as [-> ->]. auto.
  - specialize (IH (ReposMap.set (fullName r)
                      (useFetched (fetchRepoData remote (fullName r)) r) c)).
    destruct (fetchMissing remote c0 rs _) as [log [rs' c']].
    simpl in *. destruct IH as [-> ->]. auto.
Qed.

Lemma filter_copyCached (c0 : ReposMap.t) (rs : list Repository) :
  List.filter (fun r => negb (isCached c0 r)) (copyCached c0 rs)
  = List.filter (fun r => negb (isCached c0 r)) rs.
Proof.
  unfold copyCached. induction rs as [| r rs IH]; simpl; [reflexivity|].
  rewrite !isCached_get.
  destruct (ReposMap.get (fullName r) c0) as [cached|] eqn:E; simpl.
  - rewrite E. simpl. exact IH.
  - rewrite E. simpl. now rewrite IH.
Qed.

Lemma fetchStarsForRepos_spec (remote : Remote) (repos : list Repository)
  (cache : Cache.t) :
  fst (fetchStarsForRepos remote repos cache) = map fullName (toFetch repos cache)
  /\ fst (snd (fetchStarsForRepos remote repos cache))
     = map (enriched remote (Cache.repos cache)) repos.
Proof.
  unfold fetchStarsForRepos, toFetch.
  pose proof (fetchMissing_spec remote (Cache.repos cache)
                (copyCached (Cache.repos cache) repos) (Cache.repos cache)) as [Hlog Hrs].
  destruct (fetchMissing _ _ _ _) as [log [rs' c']]. simpl in *.
  split.
  - now rewrite Hlog, filter_copyCached.
  - rewrite Hrs. unfold copyCached. rewrite map_map. apply map_ext.
    intros r. unfold enriched. rewrite isCached_get.
    destruct (ReposMap.get (fullName r) (Cache.repos cache)) eqn:E; simpl.
    + now rewrite E.
    + now rewrite E.
Qed.

Lemma enrich_spec (remote : Remote) (times : Times) (username : string)
  (config : Config) (cache : Cache.t) (repos : list Repository) :
  fst (enrich remote times username config cache repos)
    = map fullName (toFetch (hotSet config repos) cache)
  /\ exists others,
       fetched_repos (snd (enrich remote times username config cache repos))
       = map (enriched remote (Cache.repos cache)) (hotSet config repos) ++ others.
Proof.
  unfold enrich, hotSet.
  pose proof (fetchStarsForRepos_spec remote
                (Js.slice_to (stableSort byPrCount repos) (budgetOf config)) cache)
    as [Hlog Hrs].
  destruct (fetchStarsForRepos _ _ _) as [log [top cache']]. simpl in *.
  split; [exact Hlog|]. eexists. now rewrite Hrs.
Qed.

Lemma lookup_map_app {A B} (f : A -> B) (l : list A) (others : list B)
  (i : nat) (x : A) :
  l !! i = Some x -> (map f l ++ others) !! i = Some (f x).
Proof.
  revert i. induction l as [| y l IH]; intros [| i]; simpl; try discriminate.
  - now intros [= ->].
  - apply IH.
Qed.

Lemma lookup_In {A} (l : list A) (i : nat) (x : A) : l !! i = Some x -> In x l.
Proof.
  revert i. induction l as [| y l IH]; intros [| i]; simpl; try discriminate.
  - intros [= ->]. now left.
  - intros H. right. eapply IH, H.
Qed.

Lemma sortInsert_length {A} (compare : A -> A -> Z) (x : A) (l : list A) :
  length (sortInsert compare x l) = S (length l).
Proof.
  induction l as [| y l IH]; simpl; [reflexivity|].
  destruct (compare x y >? 0); simpl; now rewrite ?IH.
Qed.

Lemma stableSort_length {A} (compare : A -> A -> Z) (l : list A) :
  length (stableSort compare l) = length l.
Proof.
  unfold stableSort. induction l as [| x l IH]; simpl; [reflexivity|].
  now rewrite sortInsert_length, IH.
Qed.

(** The ranking of [fetchAndCache]: a rearrangement of the rollups in
    which [prCount] never increases. *)
Lemma sortInsert_Permutation {A} (compare : A -> A -> Z) (x : A) (l : list A) :
  Permutation (x :: l) (sortInsert compare x l).
Proof.
  induction l as [| y l IH]; simpl; [reflexivity|].
  destruct (compare x y >? 0); [| reflexivity].
  rewrite perm_swap. now apply perm_skip.
Qed.

Lemma stableSort_Permutation {A} (compare : A -> A -> Z) (l : list A) :
  Permutation l (stableSort compare l).
Proof.
  unfold stableSort. induction l as [| x l IH]; simpl; [reflexivity|].
  rewrite <- sortInsert_Permutation. now apply perm_skip.
Qed.

Lemma sortInsert_byPrCount_Sorted (x : Repository) (l : list Repository) :
  Sorted (fun a b => prCount b <= prCount a) l ->
  Sorted (fun a b => prCount b <= prCount a) (sortInsert byPrCount x l).
Proof.
  induction 1 as [| y l Hl IH Hhd]; simpl; [repeat constructor|].
  unfold byPrCount at 1.
  destruct (Z.gtb_spec (prCount y - prCount x) 0) as [Hgt | Hle].
  - constructor; [exact IH|].
    destruct l as [| z l]; simpl.
    + constructor. lia.
    + unfold byPrCount at 1.
      destruct (Z.gtb_spec (prCount z - prCount x) 0); constructor;
        [now inversion Hhd | lia].
  - constructor; [now constructor | constructor; lia].
Qed.

Lemma stableSort_byPrCount_Sorted (l : list Repository) :
  Sorted (fun a b => prCount b <= prCount a) (stableSort byPrCount l).
Proof.
  unfold stableSort. induction l as [| x l IH]; simpl; [constructor|].
  now apply sortInsert_byPrCount_Sorted.
Qed.

Lemma hotSet_length (config : Config) (repos : list Repository) :
  0 < budgetOf config ->
  length (hotSet config repos)
  = Nat.min (Z.to_nat (budgetOf config)) (length repos).
Proof.
  intros Hpos. unfold hotSet, Js.slice_to, Js.clamp_index.
  rewrite stableSort_length.
  destruct (Z.ltb_spec (budgetOf config) 0); [lia|].
  rewrite length_firstn, stableSort_length. lia.
Qed.

Lemma toFetch_cachedRepos_length (repos : list Repository) (cache : Cache.t) :
  (length (toFetch repos cache) + length (cachedRepos repos cache))%nat
  = length repos.
Proof.
  unfold toFetch, cachedRepos.
  induction repos as [| r repos IH]; simpl; [reflexivity|].
  destruct (isCached (Cache.repos cache) r); simpl; lia.
Qed.

Lemma toFetch_names (repos : list Repository) (cache : Cache.t) (f : string) :
  In f (map fullName (toFetch repos cache)) <->
  exists r, In r repos /\ fullName r = f
            /\ ReposMap.get f (Cache.repos cache) = None.
Proof.
  unfold toFetch. rewrite in_map_iff. split.
  - intros (r & <- & Hin). apply filter_In in Hin as [Hin Hc].
    exists r. repeat split; auto. rewrite isCached_get in Hc.
    now destruct (ReposMap.get (fullName r) (Cache.repos cache)).
  - intros (r & Hin & <- & Hget). exists r. split; [reflexivity|].
    apply filter_In. split; [exact Hin|]. now rewrite isCached_get, Hget.
Qed.

(** C10: a hot-set rollup whose full name has an entry in the durable cache
    comes out of the enrichment pass with [stars], [isPrivate], [isOwned] and
    [lastContributedAt] all taken from the cached entry; its other fields
    stay as aggregated. *)
Theorem cached_hot_rollup_takes_four_cached_fields (remote : Remote)
  (times : Times) (username : string) (config : Config) (cache : Cache.t)
  (repos : list Repository) (i : nat) (r cached : Repository) :
  hotSet config repos !! i = Some r ->
  ReposMap.get (fullName r) (Cache.repos cache) = Some cached ->
  exists r',
    fetched_repos (snd (enrich remote times username config cache repos)) !! i
      = Some r'
    /\ stars r' = stars cached
    /\ isPrivate r' = isPrivate cached
    /\ isOwned r' = isOwned cached
    /\ lastContributedAt r' = lastContributedAt cached
    /\ name r' = name r /\ fullName r' = fullName r /\ url r' = url r
    /\ prCount r' = prCount r.
Proof.
  intros Hi Hget.
  destruct (enrich_spec remote times username config cache repos)
    as [_ [others ->]].
  exists (useCached cached r). split.
  - rewrite (lookup_map_app _ _ _ _ _ Hi). unfold enriched. now rewrite Hget.
  - repeat split.
Qed.

(** C1 (as the code has it): a hot-set rollup is fetched live exactly when
    the durable cache has no entry for its full name.  With an entry, no
    request is made for that name and the cached fields are used; without
    one, the request is made, its stars and visibility are used, and a
    failed request yields 0 stars and not private. *)
Theorem hot_rollup_fetched_only_when_not_cached (remote : Remote)
  (times : Times) (username : string) (config : Config) (cache : Cache.t)
  (repos : list Repository) (i : nat) (r : Repository) :
  hotSet config repos !! i = Some r ->
  match ReposMap.get (fullName r) (Cache.repos cache) with
  | Some cached =>
      ~ In (fullName r) (fst (enrich remote times username config cache repos))
      /\ fetched_repos (snd (enrich remote times username config cache repos)) !! i
         = Some (useCached cached r)
  | None =>
      In (fullName r) (fst (enrich remote times username config cache repos))
      /\ fetched_repos (snd (enrich remote times username config cache repos)) !! i
         = Some (useFetched (fetchRepoData remote (fullName r)) r)
      /\ match repo remote (fullName r) with
         | RepoError _ => fetchRepoData remote (fullName r) = (0, false)
         | RepoOk _ => True
         end
  end.
Proof.
  intros Hi.
  destruct (enrich_spec remote times username config cache repos)
    as [-> [others ->]].
  rewrite (lookup_map_app _ _ _ _ _ Hi). unfold enriched.
  destruct (ReposMap.get (fullName r) (Cache.repos cache)) as [cached|] eqn:Hget.
  - split; [| reflexivity].
    rewrite toFetch_names. intros (r2 & _ & _ & Hnone). congruence.
  - split; [| split; [reflexivity|]].
    + rewrite toFetch_names. exists r. eauto using lookup_In.
    + unfold fetchRepoData. now destruct (repo remote (fullName r)).
Qed.

(** C4 (as the code has it): for a positive budget, [fetchAndCache] makes at
    most [budget] live metadata requests; the enrichment pass requests
    exactly the hot-set rollups that have no durable-cache entry, the hot set
    being the first [min budget (number of rollups)] rollups of the ranking,
    so nothing beyond the hot set is requested. *)
Theorem live_fetches_bounded_by_positive_budget (fuel : nat) (remote : Remote)
  (currentYear : Z) (times : Times) (username : string) (config : Config)
  (cache : Cache.t) :
  0 < budgetOf config ->
  (length (metadata (fst (fetchAndCache fuel remote currentYear times username
                            config cache)))
   <= Z.to_nat (budgetOf config))%nat
  /\ forall repos,
       fst (enrich remote times username config cache repos)
         = map fullName (toFetch (hotSet config repos) cache)
       /\ length (hotSet config repos)
          = Nat.min (Z.to_nat (budgetOf config)) (length repos)
       /\ (length (fst (enrich remote times username config cache repos))
           + length (cachedRepos (hotSet config repos) cache))%nat
          = length (hotSet config repos).
Proof.
  intros Hpos.
  assert (Henrich : forall cache' repos,
             (length (fst (enrich remote times username config cache' repos))
              <= Z.to_nat (budgetOf config))%nat).
  { intros cache' repos.
    destruct (enrich_spec remote times username config cache' repos) as [-> _].
    rewrite length_map.
    pose proof (toFetch_cachedRepos_length (hotSet config repos) cache').
    pose proof (hotSet_length config repos Hpos). lia. }
  split.
  - unfold fetchAndCache.
    destruct (negb (isCacheStale (at_check times) cache)
              && String.eqb (Cache.username cache) username
              && (Z.of_nat (length (Cache.repos cache)) >? 0)).
    + specialize (Henrich cache (ReposMap.values (Cache.repos cache))).
      destruct (enrich _ _ _ _ _ _) as [log fetched]. exact Henrich.
    + destruct (fetchContributedRepos fuel remote username currentYear)
        as [searches [repos | msg |]]; simpl; try lia.
      specialize (Henrich (Cache.mk username (Cache.repos cache)
                             (Cache.fetchedAt cache)) repos).
      destruct (enrich _ _ _ _ _ _) as [log fetched]. exact Henrich.
  - intros repos.
    destruct (enrich_spec remote times username config cache repos) as [Hlog _].
    rewrite Hlog, length_map. repeat split.
    + now apply hotSet_length.
    + apply toFetch_cachedRepos_length.
Qed.

(** ** Projection: the filter *)

Lemma has_In (names : list string) (x : string) : has names x = true <-> In x names.
Proof.
  unfold has. rewrite existsb_exists. split.
  - intros (y & Hin & Heq). apply String.eqb_eq in Heq. now subst.
  - intros Hin. exists x. split; [exact Hin | apply String.eqb_refl].
Qed.

Lemma keeps_not_excluded (config : Config) (r : Repository) :
  keeps config r = true -> has (exclude config) (fullName r) = false.
Proof. unfold keeps. now destruct (has (exclude config) (fullName r)). Qed.

Lemma keeps_included (config : Config) (r : Repository) :
  has (exclude config) (fullName r) = false ->
  has (include config) (fullName r) = true ->
  keeps config r = true.
Proof. unfold keeps. now intros -> ->. Qed.

Lemma find_fullName (all : list Repository) (f : string) (r : Repository) :
  List.find (fun r => String.eqb (fullName r) f) all = Some r ->
  In r all /\ fullName r = f.
Proof.
  intros H. apply find_some in H as [Hin Heq]. now apply String.eqb_eq in Heq.
Qed.

Lemma find_fullName_exists (all : list Repository) (r : Repository) :
  In r all ->
  exists r', List.find (fun x => String.eqb (fullName x) (fullName r)) all = Some r'.
Proof.
  intros Hin.
  destruct (List.find (fun x => String.eqb (fullName x) (fullName r)) all) eqn:E;
    [eauto|].
  pose proof (find_none _ _ E r Hin) as Hne. simpl in Hne.
  now rewrite String.eqb_refl in Hne.
Qed.

Section SecondPass.

Variables (config : Config) (filteredSet : list string) (all : list Repository).

Lemma pushIncluded_keeps_old (acc : list Repository) (f : string) (r : Repository) :
  In r acc -> In r (pushIncluded config filteredSet all acc f).
Proof.
  intros Hin. unfold pushIncluded.
  destruct (negb (has filteredSet f) && negb (has (exclude config) f)); [| exact Hin].
  destruct (List.find _ all); [| exact Hin]. apply in_or_app. now left.
Qed.

Lemma pushIncluded_new (acc : list Repository) (f : string) (r : Repository) :
  In r (pushIncluded config filteredSet all acc f) ->
  In r acc
  \/ (fullName r = f /\ In r all /\ has (exclude config) f = false).
Proof.
  unfold pushIncluded.
  destruct (has filteredSet f); simpl; [now left|].
  destruct (has (exclude config) f) eqn:Hex; simpl; [now left|].
  destruct (List.find _ all) as [r'|] eqn:Hfind; [| now left].
  intros Hin. apply in_app_or in Hin as [Hin | [<- | []]]; [now left|].
  right. apply find_fullName in Hfind as [Hall Hname]. auto.
Qed.

Lemma secondPass_keeps_old (incl : list string) (acc : list Repository)
  (r : Repository) :
  In r acc -> In r (fold_left (pushIncluded config filteredSet all) incl acc).
Proof.
  revert acc. induction incl as [| f incl IH]; intros acc Hin; simpl; [exact Hin|].
  apply IH. now apply pushIncluded_keeps_old.
Qed.

Lemma secondPass_new (incl : list string) (acc : list Repository) (r : Repository) :
  In r (fold_left (pushIncluded config filteredSet all) incl acc) ->
  In r acc
  \/ (In (fullName r) incl /\ In r all
      /\ has (exclude config) (fullName r) = false).
Proof.
  revert acc. induction incl as [| f incl IH]; intros acc; simpl; [now left|].
  intros Hin. apply IH in Hin as [Hin | (Hi & Ha & Hx)].
  - apply pushIncluded_new in Hin as [Hin | (<- & Ha & Hx)]; [now left|].
    right. auto.
  - right. auto.
Qed.

Lemma secondPass_adds (incl : list string) (acc : list Repository) (r : Repository) :
  In (fullName r) incl ->
  has filteredSet (fullName r) = false ->
  has (exclude config) (fullName r) = false ->
  In r all ->
  exists r', In r' (fold_left (pushIncluded config filteredSet all) incl acc)
             /\ fullName r' = fullName r.
Proof.
  intros Hincl Hfs Hex Hall. revert acc.
  induction incl as [| f incl IH]; intros acc; [destruct Hincl|].
  destruct Hincl as [-> | Hincl]; [| apply IH, Hincl].
  simpl. destruct (find_fullName_exists all r Hall) as [r' Hfind].
  exists r'. split.
  - apply secondPass_keeps_old. unfold pushIncluded.
    rewrite Hfs, Hex, Hfind. simpl. apply in_or_app. right. now left.
  - now apply find_fullName in Hfind.
Qed.

End SecondPass.

Lemma filterRepos_sound (repos : list Repository) (config : Config)
  (allRepos : list Repository) (r : Repository) :
  In r (filterRepos repos config allRepos) -> keeps config r = true.
Proof.
  unfold filterRepos. intros Hin.
  apply secondPass_new in Hin as [Hin | (Hi & _ & Hx)].
  - now apply filter_In in Hin.
  - apply keeps_included; [exact Hx | now apply has_In].
Qed.

(** C7: no repository whose full name is excluded appears in the output of
    [filterRepos], whether or not it is also included; and, whatever the
    exclude list, the scope and the visibility settings are, a repository
    that is included and not excluded is itself in the output when it is in
    [repos], and has its full name in the output when it is in [allRepos]. *)
Theorem exclude_beats_include_beats_scope (repos : list Repository)
  (config : Config) (allRepos : list Repository) :
  (forall x, has (exclude config) (fullName x) = true ->
     ~ In x (filterRepos repos config allRepos)
     /\ forall r, In r (filterRepos repos config allRepos) ->
          fullName r <> fullName x)
  /\ (forall y,
        has (include config) (fullName y) = true ->
        has (exclude config) (fullName y) = false ->
        (In y repos -> In y (filterRepos repos config allRepos))
        /\ (In y repos \/ In y allRepos ->
            exists r, In r (filterRepos repos config allRepos)
                      /\ fullName r = fullName y)).
Proof.
  split.
  - intros x Hx.
    assert (Hname : forall r, In r (filterRepos repos config allRepos) ->
                      fullName r <> fullName x).
    { intros r Hin Heq. apply filterRepos_sound, keeps_not_excluded in Hin.
      rewrite Heq in Hin. congruence. }
    split; [| exact Hname]. intros Hin. now apply (Hname x Hin).
  - intros y Hyi Hye.
    assert (Hrepos : In y repos -> In y (filterRepos repos config allRepos)).
    { intros Hin. unfold filterRepos. apply secondPass_keeps_old.
      apply filter_In. split; [exact Hin | now apply keeps_included]. }
    split; [exact Hrepos|]. intros [Hin | Hin]; [eauto|].
    unfold filterRepos.
    destruct (has (map fullName (List.filter (keeps config) repos)) (fullName y))
      eqn:Hfs.
    + apply has_In, in_map_iff in Hfs as (r & Hname & Hr).
      exists r. split; [| exact Hname]. now apply secondPass_keeps_old.
    + apply secondPass_adds; auto. now apply has_In.
Qed.

Lemma filter_all {A} (p : A -> bool) (l : list A) :
  (forall x, In x l -> p x = true) -> List.filter p l = l.
Proof.
  induction l as [| x l IH]; intros H; simpl; [reflexivity|].
  rewrite (H x (or_introl eq_refl)), IH; [reflexivity|].
  intros y Hy. apply H. now right.
Qed.

Lemma pushIncluded_own_names (config : Config) (all acc : list Repository)
  (f : string) :
  pushIncluded config (map fullName all) all acc f = acc.
Proof.
  unfold pushIncluded.
  destruct (has (map fullName all) f) eqn:Hfs; simpl; [reflexivity|].
  destruct (has (exclude config) f); simpl; [reflexivity|].
  destruct (List.find _ all) as [r|] eqn:Hfind; [| reflexivity].
  apply find_fullName in Hfind as [Hin <-].
  assert (has (map fullName all) (fullName r) = true)
    by (apply has_In, in_map, Hin).
  congruence.
Qed.

(** C8: applying [filterRepos] to its own output, with that output as the
    full set, returns the output unchanged (the same repositories, in the
    same order). *)
Theorem filterRepos_idempotent (repos : list Repository) (config : Config)
  (allRepos : list Repository) :
  filterRepos (filterRepos repos config allRepos) config
    (filterRepos repos config allRepos)
  = filterRepos repos config allRepos.
Proof.
  set (out := filterRepos repos config allRepos).
  assert (Hkeep : List.filter (keeps config) out = out).
  { apply filter_all. intros r. apply filterRepos_sound. }
  unfold filterRepos at 1. rewrite Hkeep.
  generalize (include config) as incl.
  induction incl as [| f incl IH]; simpl; [reflexivity|].
  now rewrite pushIncluded_own_names.
Qed.

(** ** Memory cache and revalidation *)

Lemma getRepos_hit (localeCompare : string -> string -> Z) (env : Env)
  (config : Config) (st : Store) (data : list Repository) (fetchedAt : Z) :
  memoryCache st !! identityOf config (env_login env)
    = Some (Mem.mk (Some data) fetchedAt) ->
  env_now env - fetchedAt < STALE_WHILE_REVALIDATE_MS ->
  getRepos localeCompare env config st
  = (Ok (Reply.mk (project localeCompare data config)
           (mkCacheStats true (negb (env_now env - fetchedAt <? CACHE_AGE_MS))
              (env_now env - fetchedAt))
           (identityOf config (env_login env))),
     maybeRevalidate true (identityOf config (env_login env)) config st).
Proof.
  intros Hcached Hage. unfold getRepos. rewrite Hcached. cbn [Mem.fetchedAt].
  apply Z.ltb_lt in Hage. rewrite Hage, orb_true_r. reflexivity.
Qed.

(** On a miss, a rejected [fetchAndCache] rejects the read and leaves the
    store as it was. *)
Lemma getRepos_miss_failure (localeCompare : string -> string -> Z) (env : Env)
  (config : Config) (st : Store) (message : string) :
  memoryCache st !! identityOf config (env_login env) = None ->
  snd (fetchAndCache (env_fuel env) (env_remote env) (env_year env)
         (env_times env) (identityOf config (env_login env)) config
         (loadCache (file st))) = Failed message ->
  getRepos localeCompare env config st = (Failed message, st).
Proof.
  intros Hmiss Hout. unfold getRepos. rewrite Hmiss.
  destruct (fetchAndCache _ _ _ _ _ _ _) as [log out]. simpl in Hout.
  now subst out.
Qed.

Lemma inflightFor_app (username : string) (st : Store) (task : Task)
  (promise : option Task) (marked : option string) :
  inflightFor username
    (mkStore (memoryCache st) promise marked (file st) (inflight st ++ [task]))
  = (inflightFor username st
     + if String.eqb (task_user task) username then 1 else 0)%nat.
Proof.
  unfold inflightFor. cbn [inflight]. rewrite List.filter_app, length_app.
  simpl. now destruct (String.eqb (task_user task) username).
Qed.

Lemma maybeRevalidate_marked (username : string) (config : Config) (st : Store) :
  markerNames username st = true ->
  maybeRevalidate true username config st = st.
Proof.
  unfold markerNames, maybeRevalidate.
  destruct (revalidatePromise st); [| discriminate].
  now intros ->.
Qed.

Lemma maybeRevalidate_unmarked (username : string) (config : Config) (st : Store) :
  markerNames username st = false ->
  maybeRevalidate true username config st
  = mkStore (memoryCache st)
      (Some (mkTask username config (loadCache (file st)))) (Some username)
      (file st) (inflight st ++ [mkTask username config (loadCache (file st))]).
Proof.
  unfold markerNames, maybeRevalidate.
  destruct (revalidatePromise st); [now intros -> | reflexivity].
Qed.

(** A settled call leaves both halves of the marker as they were. *)
Lemma settle_keeps_marker (env : Env) (i : nat) (st st' : Store) :
  settle env i st = Some st' ->
  revalidatePromise st' = revalidatePromise st
  /\ revalidateUser st' = revalidateUser st.
Proof.
  unfold settle. destruct (inflight st !! i) as [task|]; [| discriminate].
  destruct (fetchAndCache _ _ _ _ _ _ _) as [log [fetched | msg |]];
    intros [= <-]; simpl; auto.
Qed.

(** C2 (the code at the failing input): 30 s after the snapshot of alice was
    stored, with no revalidation marked or in flight, a read is answered from
    the cache as fresh ([isStale] is false), and yet it starts a background
    revalidation for alice and marks it. *)
Theorem fresh_read_starts_revalidation :
  revalidatePromise Ex.idle = None /\ inflight Ex.idle = []
  /\ exists reply st,
       getRepos Ex.collate (Ex.envAt 30000) Ex.aliceAll Ex.idle = (Ok reply, st)
       /\ Reply.cache reply = mkCacheStats true false 30000
       /\ revalidateUser st = Some "alice"
       /\ inflightFor "alice" st = 1%nat.
Proof.
  split; [reflexivity|]. split; [reflexivity|].
  rewrite (getRepos_hit Ex.collate (Ex.envAt 30000) Ex.aliceAll Ex.idle [Ex.x] 0);
    [| reflexivity | reflexivity].
  do 2 eexists. split; [reflexivity|]. repeat split.
Qed.

(** C3 (as the code has it): there is one process-wide marker, not one per
    identity.  A stale read made while a revalidation for the reader's
    identity is in flight leaves the store as it is, and so starts nothing,
    as long as the marker still names that identity; once a read for another
    identity has re-pointed the marker, the stale read starts a second
    revalidation next to the one in flight and points the marker back. *)
Theorem marked_identity_starts_no_second_revalidation
  (localeCompare : string -> string -> Z) (env : Env) (config : Config)
  (st : Store) (data : list Repository) (fetchedAt : Z) :
  memoryCache st !! identityOf config (env_login env)
    = Some (Mem.mk (Some data) fetchedAt) ->
  CACHE_AGE_MS <= env_now env - fetchedAt < STALE_WHILE_REVALIDATE_MS ->
  (0 < inflightFor (identityOf config (env_login env)) st)%nat ->
  let username := identityOf config (env_login env) in
  let st' := snd (getRepos localeCompare env config st) in
  if markerNames username st then st' = st
  else inflightFor username st' = S (inflightFor username st)
       /\ markerNames username st' = true.
Proof.
  intros Hcached [_ Hage] _. cbv zeta.
  rewrite (getRepos_hit _ _ _ _ _ _ Hcached Hage). cbn [snd].
  destruct (markerNames _ st) eqn:Hm.
  - now apply maybeRevalidate_marked.
  - rewrite (maybeRevalidate_unmarked _ _ _ Hm). split.
    + rewrite inflightFor_app. cbn [task_user]. rewrite String.eqb_refl. lia.
    + unfold markerNames. cbn. now apply bool_decide_eq_true_2.
Qed.

(** ** The statements at concrete inputs *)

(** C1, counterexample: bob/y is in the hot set and has a durable-cache
    entry; the enrichment pass makes no request at all, although a request
    would have succeeded with 50 stars, and the rollup ends with the cached
    7 stars. *)
Lemma cached_hot_rollup_is_not_refetched :
  hotSet Ex.aliceAll [Ex.bobFresh] = [Ex.bobFresh]
  /\ ReposMap.get "bob/y" (Cache.repos Ex.oldCache) = Some Ex.bobCached
  /\ fetchRepoData Ex.remote "bob/y" = (50, false)
  /\ fst (enrich Ex.remote Ex.times "alice" Ex.aliceAll Ex.oldCache [Ex.bobFresh]) = []
  /\ map stars
       (fetched_repos
          (snd (enrich Ex.remote Ex.times "alice" Ex.aliceAll Ex.oldCache
                  [Ex.bobFresh]))) = [7].
Proof. repeat split. Qed.

Lemma hot_rollup_fetched_only_when_not_cached_witness :
  hotSet Ex.aliceAll [Ex.bobFresh] !! 0%nat = Some Ex.bobFresh
  /\ In "bob/y"
       (fst (enrich Ex.remote Ex.times "alice" Ex.aliceAll Cache.empty [Ex.bobFresh]))
  /\ fetched_repos
       (snd (enrich Ex.remote Ex.times "alice" Ex.aliceAll Cache.empty [Ex.bobFresh]))
       !! 0%nat
     = Some (useFetched (50, false) Ex.bobFresh).
Proof.
  split; [reflexivity|].
  pose proof (hot_rollup_fetched_only_when_not_cached Ex.remote Ex.times "alice"
                Ex.aliceAll Cache.empty [Ex.bobFresh] 0 Ex.bobFresh eq_refl) as H.
  cbn in H. destruct H as (Hin & Hrepo & _). split; [exact Hin | exact Hrepo].
Defined.

(** C4, counterexample: with a budget of 0 the pass still requests the one
    rollup there is; and with 500 rollups and a budget of 20 it makes 19
    requests, not 20, when the durable cache knows one of the hot rollups. *)
Lemma zero_budget_and_cached_hot_rollup :
  starsLimit Ex.zeroBudget = Some 0
  /\ length (fst (enrich Ex.remote Ex.times "alice" Ex.zeroBudget Cache.empty
                    [Ex.bobFresh])) = 1%nat
  /\ length (Ex.rollups 500) = 500%nat
  /\ starsLimit Ex.aliceAll = Some 20
  /\ length (fst (enrich Ex.remote Ex.times "alice" Ex.aliceAll Ex.knows500
                    (Ex.rollups 500))) = 19%nat.
Proof. repeat split; vm_compute; reflexivity. Qed.

Lemma live_fetches_bounded_by_positive_budget_witness :
  0 < budgetOf Ex.aliceAll
  /\ length (fst (enrich Ex.remote Ex.times "alice" Ex.aliceAll Cache.empty
                    (Ex.rollups 500))) = 20%nat.
Proof.
  assert (Hpos : 0 < budgetOf Ex.aliceAll) by reflexivity.
  split; [exact Hpos|].
  destruct (live_fetches_bounded_by_positive_budget 4 Ex.remote 2024 Ex.times
              "alice" Ex.aliceAll Cache.empty Hpos) as [_ Hrepos].
  destruct (Hrepos (Ex.rollups 500)) as (_ & Hhot & Hsum).
  rewrite Hhot in Hsum.
  assert (Hnone : length (cachedRepos (hotSet Ex.aliceAll (Ex.rollups 500))
                            Cache.empty) = 0%nat)
    by (vm_compute; reflexivity).
  assert (Hbudget : Z.to_nat (budgetOf Ex.aliceAll) = 20%nat) by reflexivity.
  assert (Hlen : length (Ex.rollups 500) = 500%nat) by (vm_compute; reflexivity).
  rewrite Hnone, Hbudget, Hlen in Hsum. lia.
Defined.

Lemma lastContributedAt_is_lexicographic_max_witness :
  matching "alice/x" Ex.page2024
    = [Ex.pr "alice/x" "2024-02-01T10:00:00Z"; Ex.pr "alice/x" "2024-01-15T09:00:00Z"]
  /\ exists r r',
       ReposMap.get "alice/x" (foldItems "alice" Ex.page2024 []) = Some r
       /\ greatest (lastContributedAt r)
            ["2024-02-01T10:00:00Z"; "2024-01-15T09:00:00Z"]
       /\ ReposMap.get "alice/x"
            (foldPR "alice" (foldItems "alice" Ex.page2024 [])
               (Ex.pr "alice/x" "2023-12-24T18:00:00Z")) = Some r'
       /\ ts_le (lastContributedAt r) (lastContributedAt r').
Proof.
  split; [reflexivity|].
  apply (lastContributedAt_is_lexicographic_max "alice" Ex.page2024 "alice/x"
           (Ex.pr "alice/x" "2024-02-01T10:00:00Z")
           [Ex.pr "alice/x" "2024-01-15T09:00:00Z"]
           (Ex.pr "alice/x" "2023-12-24T18:00:00Z")).
  reflexivity.
Defined.

Lemma exclude_beats_include_beats_scope_witness :
  has (exclude Ex.ownOnly) (fullName Ex.x) = true
  /\ has (include Ex.ownOnly) (fullName Ex.x) = true
  /\ has (include Ex.ownOnly) (fullName Ex.y) = true
  /\ has (exclude Ex.ownOnly) (fullName Ex.y) = false
  /\ keeps (mkConfig ScopeOwn SortStars false 0 [] [] None None) Ex.y = false
  /\ In Ex.x [Ex.x] /\ In Ex.y [Ex.x; Ex.y]
  /\ ~ In Ex.x (filterRepos [Ex.x] Ex.ownOnly [Ex.x; Ex.y])
  /\ (forall r, In r (filterRepos [Ex.x] Ex.ownOnly [Ex.x; Ex.y]) ->
        fullName r <> fullName Ex.x)
  /\ (exists r, In r (filterRepos [Ex.x] Ex.ownOnly [Ex.x; Ex.y])
                /\ fullName r = fullName Ex.y).
Proof.
  do 5 (split; [reflexivity|]).
  split; [now left|]. split; [right; now left|].
  destruct (exclude_beats_include_beats_scope [Ex.x] Ex.ownOnly [Ex.x; Ex.y])
    as [Hexcluded Hincluded].
  destruct (Hexcluded Ex.x eq_refl) as [Hx Hnames].
  destruct (Hincluded Ex.y eq_refl eq_refl) as [_ Hy].
  split; [exact Hx|]. split; [exact Hnames|].
  apply Hy. right. right. now left.
Defined.

Lemma page_failure_aborts_aggregation_witness :
  In (2023, 1)
     (pages (fst (fetchAndCache 4 Ex.flaky 2024 Ex.times "alice" Ex.aliceAll
                    Cache.empty)))
  /\ search Ex.flaky "alice" 2023 1 = SearchError "GitHub API error: 502 Bad Gateway"
  /\ snd (fetchContributedRepos 4 Ex.flaky "alice" 2024)
     = Failed "GitHub API error: 502 Bad Gateway"
  /\ snd (fetchAndCache 4 Ex.flaky 2024 Ex.times "alice" Ex.aliceAll Cache.empty)
     = Failed "GitHub API error: 502 Bad Gateway"
  /\ commit "alice"
       (snd (fetchAndCache 4 Ex.flaky 2024 Ex.times "alice" Ex.aliceAll Cache.empty))
       Ex.idle = Ex.idle.
Proof.
  assert (Hin : In (2023, 1)
                  (pages (fst (fetchAndCache 4 Ex.flaky 2024 Ex.times "alice"
                                 Ex.aliceAll Cache.empty))))
    by (right; left; reflexivity).
  split; [exact Hin|]. split; [reflexivity|].
  exact (page_failure_aborts_aggregation 4 Ex.flaky 2024 Ex.times "alice"
           Ex.aliceAll Cache.empty Ex.idle 2023 1 _ Hin eq_refl).
Defined.

Lemma cached_hot_rollup_takes_four_cached_fields_witness :
  hotSet Ex.aliceAll [Ex.bobFresh] !! 0%nat = Some Ex.bobFresh
  /\ ReposMap.get (fullName Ex.bobFresh) (Cache.repos Ex.oldCache) = Some Ex.bobCached
  /\ exists r',
       fetched_repos
         (snd (enrich Ex.remote Ex.times "alice" Ex.aliceAll Ex.oldCache [Ex.bobFresh]))
         !! 0%nat = Some r'
       /\ stars r' = 7 /\ isPrivate r' = true /\ isOwned r' = true
       /\ lastContributedAt r' = "2021-06-01T00:00:00Z"
       /\ name r' = "y" /\ fullName r' = "bob/y"
       /\ url r' = "https://github.com/bob/y" /\ prCount r' = 3.
Proof.
  split; [reflexivity|]. split; [reflexivity|].
  exact (cached_hot_rollup_takes_four_cached_fields Ex.remote Ex.times "alice"
           Ex.aliceAll Ex.oldCache [Ex.bobFresh] 0 Ex.bobFresh Ex.bobCached
           eq_refl eq_refl).
Defined.

(** C3, counterexample: ten minutes after both snapshots were stored, alice,
    bob and alice again read.  Bob's read re-points the marker, so the third
    read starts a second revalidation for alice while her first one is still
    in flight.  And when alice's first revalidation settles, fulfilled or
    rejected, the marker still names her. *)
Lemma two_revalidations_in_flight_for_alice :
  let read config st := snd (getRepos Ex.collate (Ex.envAt 600000) config st) in
  let s1 := read Ex.aliceAll Ex.idle in
  let s2 := read Ex.bobAll s1 in
  let s3 := read Ex.aliceAll s2 in
  inflightFor "alice" s1 = 1%nat
  /\ revalidateUser s2 = Some "bob" /\ inflightFor "alice" s2 = 1%nat
  /\ inflightFor "alice" s3 = 2%nat
  /\ (exists s, settle (Ex.envAt 700000) 0 s1 = Some s
                /\ inflightFor "alice" s = 0%nat /\ markerNames "alice" s = true)
  /\ (exists s, settle (Ex.flakyAt 700000) 0 s1 = Some s
                /\ inflightFor "alice" s = 0%nat /\ markerNames "alice" s = true).
Proof.
  cbv zeta. repeat split; try (vm_compute; reflexivity).
  - eexists. split; [vm_compute; reflexivity|]. split; vm_compute; reflexivity.
  - eexists. split; [vm_compute; reflexivity|]. split; vm_compute; reflexivity.
Qed.

Lemma marked_identity_starts_no_second_revalidation_witness :
  let s1 := snd (getRepos Ex.collate (Ex.envAt 600000) Ex.aliceAll Ex.idle) in
  memoryCache s1 !! "alice" = Some (Mem.mk (Some [Ex.x]) 0)
  /\ CACHE_AGE_MS <= 600000 - 0 < STALE_WHILE_REVALIDATE_MS
  /\ (0 < inflightFor "alice" s1)%nat
  /\ markerNames "alice" s1 = true
  /\ snd (getRepos Ex.collate (Ex.envAt 600000) Ex.aliceAll s1) = s1.
Proof.
  cbv zeta.
  assert (Hage : CACHE_AGE_MS <= 600000 - 0 < STALE_WHILE_REVALIDATE_MS)
    by (split; [discriminate | reflexivity]).
  assert (Hout : (0 < inflightFor "alice"
                        (snd (getRepos Ex.collate (Ex.envAt 600000) Ex.aliceAll
                                Ex.idle)))%nat)
    by (vm_compute; constructor).
  split; [reflexivity|]. split; [exact Hage|]. split; [exact Hout|].
  split; [reflexivity|].
  exact (marked_identity_starts_no_second_revalidation Ex.collate
           (Ex.envAt 600000) Ex.aliceAll
           (snd (getRepos Ex.collate (Ex.envAt 600000) Ex.aliceAll Ex.idle))
           [Ex.x] 0 eq_refl Hage Hout).
Defined.


(** * Further properties of the code *)

(** ** Repository references *)

Lemma split_cons (sep : ascii) (a b : string) :
  contains sep a = false ->
  Js.split sep (a +:+ String sep b) = a :: Js.split sep b.
Proof.
  induction a as [| c a IH]; simpl.
  - intros _. now rewrite Ascii.eqb_refl.
  - intros H. apply orb_false_iff in H as [Hc Ha].
    rewrite Hc, (IH Ha). reflexivity.
Qed.

Lemma split_single (sep : ascii) (a : string) :
  contains sep a = false -> Js.split sep a = [a].
Proof.
  induction a as [| c a IH]; simpl; [reflexivity|].
  intros H. apply orb_false_iff in H as [Hc Ha].
  now rewrite Hc, (IH Ha).
Qed.

Lemma split_parts_clean (sep : ascii) (s : string) :
  Forall (fun part => contains sep part = false) (Js.split sep s).
Proof.
  induction s as [| c s IH]; simpl; [repeat constructor|].
  destruct (Ascii.eqb c sep) eqn:Hc.
  - constructor; [reflexivity | exact IH].
  - destruct (Js.split sep s) as [| h t]; [repeat constructor; simpl; now rewrite Hc|].
    inversion IH; subst. constructor; [simpl; now rewrite Hc | assumption].
Qed.

Lemma split_nonempty (sep : ascii) (s : string) : Js.split sep s <> [].
Proof.
  destruct s as [| c s]; simpl; [discriminate|].
  destruct (Ascii.eqb c sep); [discriminate|].
  destruct (Js.split sep s); discriminate.
Qed.

Lemma prefix_rest (p s : string) :
  String.prefix p s = true -> exists rest, s = p +:+ rest.
Proof.
  revert s. induction p as [| c p IH]; intros s.
  - intros _. now exists s.
  - destruct s as [| c' s]; simpl; [discriminate|].
    destruct (ascii_dec c c') as [<- | Hne]; [| discriminate].
    intros H. destruct (IH s H) as [rest ->]. now exists rest.
Qed.

Lemma split_repos_url (rest : string) :
  Js.split "/" ("https://api.github.com/repos/" +:+ rest)
  = "https:" :: "" :: "api.github.com" :: "repos" :: Js.split "/" rest.
Proof.
  change ("https://api.github.com/repos/" +:+ rest)
    with ("https:" +:+ String "/" ("" +:+ String "/" ("api.github.com" +:+
            String "/" ("repos" +:+ String "/" rest)))).
  now rewrite !split_cons by reflexivity.
Qed.

Lemma prefix_append (p rest : string) : String.prefix p (p +:+ rest) = true.
Proof.
  induction p as [| c p IH]; simpl.
  - now destruct rest.
  - destruct (ascii_dec c c) as [_ | Hne]; [exact IH | contradiction].
Qed.

Lemma isValidRepoUrl_prefix (rest : string) :
  isValidRepoUrl ("https://api.github.com/repos/" +:+ rest) = true.
Proof. apply prefix_append. Qed.

Lemma at_index_In (parts : list string) (i : Z) :
  0 <= i < Z.of_nat (length parts) -> In (Js.at_index parts i) parts.
Proof.
  intros H. unfold Js.at_index.
  destruct (Z.ltb_spec i 0); [lia|]. apply nth_In. lia.
Qed.

Lemma parse_joined (owner repoName : string) :
  contains "/" owner = false ->
  contains "/" repoName = false ->
  parseRepoUrl ("https://api.github.com/repos/" +:+ owner +:+ "/" +:+ repoName)
  = Some (owner +:+ "/" +:+ repoName).
Proof.
  intros Ho Hn. unfold parseRepoUrl.
  rewrite isValidRepoUrl_prefix. cbn [negb].
  rewrite split_repos_url.
  change (owner +:+ "/" +:+ repoName) with (owner +:+ String "/" repoName).
  rewrite (split_cons _ _ _ Ho), (split_single _ _ Hn).
  reflexivity.
Qed.

(** X1: the reference of a repository [owner/name] under the API's repos
    prefix parses to ["owner/name"], whenever neither part contains a
    slash; a reference that does not start with the prefix does not parse. *)
Theorem parseRepoUrl_owner_name (owner repoName other : string) :
  contains "/" owner = false ->
  contains "/" repoName = false ->
  Js.startsWith other "https://api.github.com/repos/" = false ->
  parseRepoUrl ("https://api.github.com/repos/" +:+ owner +:+ "/" +:+ repoName)
  = Some (owner +:+ "/" +:+ repoName)
  /\ parseRepoUrl other = None.
Proof.
  intros Ho Hn Hother. split; [now apply parse_joined|].
  unfold parseRepoUrl, isValidRepoUrl. now rewrite Hother.
Qed.

Lemma parseRepoUrl_owner_name_witness :
  parseRepoUrl "https://api.github.com/repos/pablopunk/github-contributions"
  = Some "pablopunk/github-contributions"
  /\ parseRepoUrl "https://github.com/pablopunk/github-contributions" = None.
Proof.
  exact (parseRepoUrl_owner_name "pablopunk" "github-contributions"
           "https://github.com/pablopunk/github-contributions"
           eq_refl eq_refl eq_refl).
Defined.

(** X2: whatever reference parses, the full name it yields is [owner/name]
    with exactly one slash; the rollup created for it is named by the part
    after the slash, and the full name parses back to itself under the repos
    prefix. *)
Theorem parsed_fullName_shape (username reference f created : string) :
  parseRepoUrl reference = Some f ->
  exists owner repoName,
    f = owner +:+ "/" +:+ repoName
    /\ contains "/" owner = false /\ contains "/" repoName = false
    /\ name (newRollup username f created) = repoName
    /\ parseRepoUrl ("https://api.github.com/repos/" +:+ f) = Some f.
Proof.
  unfold parseRepoUrl. destruct (isValidRepoUrl reference) eqn:Hvalid; [| discriminate].
  cbn [negb]. intros [= <-].
  apply prefix_rest in Hvalid as [rest ->].
  rewrite split_repos_url.
  set (parts := "https:" :: "" :: "api.github.com" :: "repos" :: Js.split "/" rest).
  assert (Hclean : Forall (fun part => contains "/" part = false) parts).
  { unfold parts. repeat (constructor; [reflexivity|]). apply split_parts_clean. }
  assert (Hlen : 5 <= Z.of_nat (length parts)).
  { unfold parts. cbn [length].
    pose proof (split_nonempty "/" rest).
    destruct (Js.split "/" rest); [congruence | cbn [length]; lia]. }
  rewrite List.Forall_forall in Hclean.
  assert (Ho : contains "/" (Js.at_index parts (Z.of_nat (length parts) - 2)) = false)
    by (apply Hclean, at_index_In; lia).
  assert (Hn : contains "/" (Js.at_index parts (Z.of_nat (length parts) - 1)) = false)
    by (apply Hclean, at_index_In; lia).
  exists (Js.at_index parts (Z.of_nat (length parts) - 2)),
         (Js.at_index parts (Z.of_nat (length parts) - 1)).
  split; [reflexivity|]. split; [exact Ho|]. split; [exact Hn|]. split.
  - unfold newRollup. cbn [name].
    change (?a +:+ "/" +:+ ?b) with (a +:+ String "/" b).
    now rewrite (split_cons _ _ _ Ho), (split_single _ _ Hn).
  - now apply parse_joined.
Qed.

Lemma parsed_fullName_shape_witness :
  parseRepoUrl "https://api.github.com/repos/a/b/c" = Some "b/c"
  /\ exists owner repoName,
       "b/c" = owner +:+ "/" +:+ repoName
       /\ contains "/" owner = false /\ contains "/" repoName = false
       /\ name (newRollup "alice" "b/c" "2024-01-01T00:00:00Z") = repoName
       /\ parseRepoUrl ("https://api.github.com/repos/" +:+ "b/c") = Some "b/c".
Proof.
  split; [reflexivity|].
  exact (parsed_fullName_shape "alice" "https://api.github.com/repos/a/b/c" "b/c"
           "2024-01-01T00:00:00Z" eq_refl).
Defined.

(** ** Invariants of the aggregated rollups *)

Module ReposMapInv.

Lemma get_In k v m : ReposMap.get k m = Some v -> In (k, v) m.
Proof.
  induction m as [| [k' v'] m IH]; simpl; [discriminate|].
  destruct (String.eqb k' k) eqn:E.
  - apply String.eqb_eq in E. intros [= ->]. left. now subst.
  - intros H. right. now apply IH.
Qed.

Lemma get_None_keys k m : ReposMap.get k m = None <-> ~ In k (map fst m).
Proof.
  induction m as [| [k' v'] m IH]; simpl; [tauto|].
  destruct (String.eqb k' k) eqn:E.
  - apply String.eqb_eq in E. split; [discriminate | intros H; elim H; now left].
  - apply String.eqb_neq in E. destruct IH as [IH1 IH2]. split.
    + intros H [Heq | Hin]; [contradiction | now apply IH1].
    + intros H. apply IH2. intros Hin. apply H. now right.
Qed.

Lemma keys_set k v m :
  map fst (ReposMap.set k v m)
  = match ReposMap.get k m with
    | Some _ => map fst m
    | None => map fst m ++ [k]
    end.
Proof.
  induction m as [| [k' v'] m IH]; simpl; [reflexivity|].
  destruct (String.eqb k' k) eqn:E; simpl; [reflexivity|].
  rewrite IH. now destruct (ReposMap.get k m).
Qed.

Lemma set_Forall (P : string * Repository -> Prop) k v m :
  Forall P m -> P (k, v) ->
  (forall k' v', P (k', v') -> String.eqb k' k = true -> P (k', v)) ->
  Forall P (ReposMap.set k v m).
Proof.
  intros Hm Hv Hsame. induction Hm as [| [k' v'] m Hkv Hm IH]; simpl.
  - now constructor.
  - destruct (String.eqb k' k) eqn:E.
    + apply String.eqb_eq in E. subst k'. now constructor.
    + now constructor.
Qed.

Lemma NoDup_snoc {A} (l : list A) (x : A) :
  List.NoDup l -> ~ In x l -> List.NoDup (l ++ [x]).
Proof.
  intros Hl Hx. apply List.NoDup_app; [exact Hl | |].
  - constructor; [intros [] | constructor].
  - intros a Ha [<- | []]. contradiction.
Qed.

Lemma set_wellKeyed k v m :
  fullName v = k -> wellKeyed m -> wellKeyed (ReposMap.set k v m).
Proof.
  intros Hname [Hnodup Hkeys]. split.
  - rewrite keys_set. destruct (ReposMap.get k m) eqn:E; [exact Hnodup|].
    apply get_None_keys in E. now apply NoDup_snoc.
  - apply set_Forall; [exact Hkeys | exact Hname |].
    intros k' v' _ E. apply String.eqb_eq in E. cbn. congruence.
Qed.

End ReposMapInv.

Lemma fold_sum_shift {A} (f : A -> Z) (l : list A) (a : Z) :
  fold_left (fun sum x => sum + f x) l a
  = a + fold_left (fun sum x => sum + f x) l 0.
Proof.
  revert a. induction l as [| x l IH]; intros a; simpl; [lia|].
  rewrite (IH (a + f x)), (IH (0 + f x)). lia.
Qed.

Lemma totalPRs_cons (r : Repository) (l : list Repository) :
  totalPRs (r :: l) = prCount r + totalPRs l.
Proof. unfold totalPRs. simpl. now rewrite fold_sum_shift. Qed.

Lemma totalPRs_app (l l' : list Repository) :
  totalPRs (l ++ l') = totalPRs l + totalPRs l'.
Proof.
  induction l as [| r l IH]; simpl; [reflexivity|].
  rewrite !totalPRs_cons, IH. lia.
Qed.

Lemma totalPRs_set (k : string) (v : Repository) (m : ReposMap.t) :
  totalPRs (ReposMap.values (ReposMap.set k v m))
  = totalPRs (ReposMap.values m) + prCount v
    - match ReposMap.get k m with Some e => prCount e | None => 0 end.
Proof.
  unfold ReposMap.values.
  induction m as [| [k' v'] m IH]; simpl.
  - rewrite totalPRs_cons. unfold totalPRs. simpl. lia.
  - destruct (String.eqb k' k); simpl; rewrite !totalPRs_cons; [lia|].
    rewrite IH. lia.
Qed.

Lemma totalPRs_foldPR (username : string) (m : ReposMap.t) (pr : PullRequest) :
  totalPRs (ReposMap.values (foldPR username m pr))
  = totalPRs (ReposMap.values m) + (if parseable pr then 1 else 0).
Proof.
  unfold foldPR, parseable.
  destruct (parseRepoUrl (repository_url pr)) as [f|] eqn:Hparse; [| lia].
  rewrite (parseRepoUrl_truthy _ _ Hparse).
  destruct (ReposMap.get f m) as [e|] eqn:Hget; rewrite totalPRs_set, Hget.
  - rewrite bump_prCount. lia.
  - cbn. lia.
Qed.

Lemma totalPRs_foldItems (username : string) (records : list PullRequest)
  (m : ReposMap.t) :
  totalPRs (ReposMap.values (foldItems username records m))
  = totalPRs (ReposMap.values m)
    + Z.of_nat (length (List.filter parseable records)).
Proof.
  unfold foldItems. revert m.
  induction records as [| pr records IH]; intros m; simpl; [lia|].
  rewrite IH, totalPRs_foldPR. destruct (parseable pr); simpl length; lia.
Qed.

Lemma foldPR_wellKeyed (username : string) (m : ReposMap.t) (pr : PullRequest) :
  wellKeyed m -> wellKeyed (foldPR username m pr).
Proof.
  intros Hm. unfold foldPR.
  destruct (parseRepoUrl (repository_url pr)) as [f|]; [| exact Hm].
  destruct (Js.truthy f); [| exact Hm].
  destruct (ReposMap.get f m) as [e|] eqn:Hget.
  - apply ReposMapInv.set_wellKeyed; [| exact Hm].
    rewrite bump_fullName. destruct Hm as [_ Hkeys].
    rewrite List.Forall_forall in Hkeys.
    exact (Hkeys _ (ReposMapInv.get_In _ _ _ Hget)).
  - now apply ReposMapInv.set_wellKeyed.
Qed.

Lemma foldItems_wellKeyed (username : string) (records : list PullRequest)
  (m : ReposMap.t) :
  wellKeyed m -> wellKeyed (foldItems username records m).
Proof.
  unfold foldItems. revert m.
  induction records as [| pr records IH]; intros m Hm; simpl; [exact Hm|].
  apply IH. now apply foldPR_wellKeyed.
Qed.

Lemma wellKeyed_names (m : ReposMap.t) :
  wellKeyed m -> map fullName (ReposMap.values m) = map fst m.
Proof.
  intros [_ Hkeys]. unfold ReposMap.values. rewrite map_map.
  induction Hkeys as [| [k v] m Hkv _ IH]; simpl; [reflexivity|].
  simpl in Hkv. now rewrite Hkv, IH.
Qed.

Lemma wellKeyed_nil : wellKeyed [].
Proof. split; constructor. Qed.

Lemma bump_asAggregated (username c : string) (e : Repository) :
  asAggregated username e -> asAggregated username (bump c e).
Proof.
  unfold asAggregated. intros (Hs & Hp & Hu & Ho & Hc).
  unfold bump. cbn [lastContributedAt prCount].
  destruct (Js.gt c (lastContributedAt e)); cbn; repeat split; auto; lia.
Qed.

Lemma newRollup_asAggregated (username f c : string) :
  asAggregated username (newRollup username f c).
Proof. unfold asAggregated, newRollup. cbn. repeat split. lia. Qed.

Lemma foldPR_asAggregated (username : string) (m : ReposMap.t) (pr : PullRequest) :
  Forall (fun kv => asAggregated username (snd kv)) m ->
  Forall (fun kv => asAggregated username (snd kv)) (foldPR username m pr).
Proof.
  intros Hm. unfold foldPR.
  destruct (parseRepoUrl (repository_url pr)) as [f|]; [| exact Hm].
  destruct (Js.truthy f); [| exact Hm].
  destruct (ReposMap.get f m) as [e|] eqn:Hget.
  - assert (He : asAggregated username (bump (created_at pr) e)).
    { apply bump_asAggregated. rewrite List.Forall_forall in Hm.
      exact (Hm _ (ReposMapInv.get_In _ _ _ Hget)). }
    apply ReposMapInv.set_Forall; [exact Hm | exact He | intros; exact He].
  - pose proof (newRollup_asAggregated username f (created_at pr)) as Hn.
    apply ReposMapInv.set_Forall; [exact Hm | exact Hn | intros; exact Hn].
Qed.

Lemma foldItems_asAggregated (username : string) (records : list PullRequest)
  (m : ReposMap.t) :
  Forall (fun kv => asAggregated username (snd kv)) m ->
  Forall (fun kv => asAggregated username (snd kv)) (foldItems username records m).
Proof.
  unfold foldItems. revert m.
  induction records as [| pr records IH]; intros m Hm; simpl; [exact Hm|].
  apply IH. now apply foldPR_asAggregated.
Qed.

(** X3: the rollups that a successful aggregation returns have pairwise
    distinct full names. *)
Theorem aggregated_fullNames_distinct (fuel : nat) (remote : Remote)
  (username : string) (currentYear : Z) (repos : list Repository) :
  snd (fetchContributedRepos fuel remote username currentYear) = Ok repos ->
  List.NoDup (map fullName repos).
Proof.
  destruct (fetchContributedRepos fuel remote username currentYear)
    as [log out] eqn:E. cbn [snd]. intros ->.
  rewrite (fetchContributedRepos_folds _ _ _ _ _ _ E).
  pose proof (foldItems_wellKeyed username
                (flat_map (itemsOf remote username) log) [] wellKeyed_nil) as Hwk.
  rewrite (wellKeyed_names _ Hwk). apply Hwk.
Qed.

Lemma aggregated_fullNames_distinct_witness :
  exists repos,
    snd (fetchContributedRepos 4 Ex.remote "alice" 2024) = Ok repos
    /\ map fullName repos = ["alice/x"; "bob/y"]
    /\ List.NoDup (map fullName repos).
Proof.
  eexists. split; [vm_compute; reflexivity|]. split; [reflexivity|].
  apply (aggregated_fullNames_distinct 4 Ex.remote "alice" 2024).
  vm_compute. reflexivity.
Defined.

(** The PR counts of the rollups of a successful aggregation add up to the
    number of items, on the pages that were fetched, whose repository
    reference parses. *)
Lemma aggregated_totalPRs (fuel : nat) (remote : Remote)
  (username : string) (currentYear : Z) (log : list (Z * Z))
  (repos : list Repository) :
  fetchContributedRepos fuel remote username currentYear = (log, Ok repos) ->
  totalPRs repos
  = Z.of_nat (length (List.filter parseable
                        (flat_map (itemsOf remote username) log))).
Proof.
  intros E.
  rewrite (fetchContributedRepos_folds _ _ _ _ _ _ E), totalPRs_foldItems.
  reflexivity.
Qed.

(** X5: every rollup of a successful aggregation has 0 stars, is not
    private, links to its GitHub page, is owned exactly when its full name
    starts with the queried user and a slash, and counts at least one PR. *)
Theorem aggregated_rollups_have_defaults (fuel : nat) (remote : Remote)
  (username : string) (currentYear : Z) (repos : list Repository) :
  snd (fetchContributedRepos fuel remote username currentYear) = Ok repos ->
  Forall (asAggregated username) repos.
Proof.
  destruct (fetchContributedRepos fuel remote username currentYear)
    as [log out] eqn:E. cbn [snd]. intros ->.
  rewrite (fetchContributedRepos_folds _ _ _ _ _ _ E).
  pose proof (foldItems_asAggregated username
                (flat_map (itemsOf remote username) log) []
                (List.Forall_nil _)) as H.
  unfold ReposMap.values. now apply Forall_map.
Qed.

Lemma aggregated_rollups_have_defaults_witness :
  exists repos,
    snd (fetchContributedRepos 4 Ex.remote "alice" 2024) = Ok repos
    /\ map isOwned repos = [true; false]
    /\ Forall (asAggregated "alice") repos.
Proof.
  eexists. split; [vm_compute; reflexivity|]. split; [reflexivity|].
  apply (aggregated_rollups_have_defaults 4 Ex.remote "alice" 2024).
  vm_compute. reflexivity.
Defined.

(** ** The requests of an aggregation *)

Lemma itemsOf_body (remote : Remote) (username : string) (year page : Z)
  (body : option (list PullRequest)) :
  search remote username year page = SearchBody body ->
  itemsOf remote username (year, page) = default [] body.
Proof. intros H. unfold itemsOf. cbn [fst snd]. now rewrite H. Qed.

Lemma year_pages_numbered (fuel : nat) (remote : Remote) (username : string)
  (year page total : Z) (m : ReposMap.t) :
  let log := fst (fetchPRsForYear_from fuel remote username year page total m) in
  log = map (fun i => (year, page + Z.of_nat i)) (seq 0 (length log)).
Proof.
  cbv zeta. revert page total m.
  induction fuel as [| fuel IH]; intros page total m; simpl; [reflexivity|].
  assert (Hone : [(year, page)]
                 = map (fun i => (year, page + Z.of_nat i)) (seq 0 1))
    by (simpl; do 2 f_equal; lia).
  destruct (search remote username year page) as [msg | body]; [exact Hone|].
  destruct (Z.of_nat (length (default [] body)) =? 0); [exact Hone|].
  destruct (Z.of_nat (length (default [] body)) <? perPage); [exact Hone|].
  specialize (IH (page + 1) (total + Z.of_nat (length (default [] body)))
                (foldItems username (default [] body) m)).
  destruct (fetchPRsForYear_from fuel remote username year (page + 1) _ _)
    as [log out]. cbn [fst] in *. cbn [length seq map].
  f_equal; [f_equal; lia|].
  rewrite <- seq_shift, map_map. rewrite IH at 1.
  apply map_ext. intros i. f_equal. lia.
Qed.

Lemma year_pages_full (fuel : nat) (remote : Remote) (username : string)
  (year page total : Z) (m : ReposMap.t) :
  Forall (fullPage remote username)
    (removelast (fst (fetchPRsForYear_from fuel remote username year page total m))).
Proof.
  revert page total m.
  induction fuel as [| fuel IH]; intros page total m; simpl; [constructor|].
  destruct (search remote username year page) as [msg | body] eqn:Hs;
    [constructor|].
  destruct (Z.of_nat (length (default [] body)) =? 0); [constructor|].
  destruct (Z.ltb_spec (Z.of_nat (length (default [] body))) perPage) as [Hlt | Hge];
    [constructor|].
  specialize (IH (page + 1) (total + Z.of_nat (length (default [] body)))
                (foldItems username (default [] body) m)).
  destruct (fetchPRsForYear_from fuel remote username year (page + 1) _ _)
    as [log out]. cbn [fst] in *.
  destruct log as [| next log]; [constructor|].
  change (removelast ((year, page) :: next :: log))
    with ((year, page) :: removelast (next :: log)).
  constructor; [| exact IH].
  unfold fullPage. now rewrite (itemsOf_body _ _ _ _ _ Hs).
Qed.

Lemma year_count (fuel : nat) (remote : Remote) (username : string)
  (year page total : Z) (m : ReposMap.t) :
  let '(log, out) := fetchPRsForYear_from fuel remote username year page total m in
  forall count m', out = Ok (count, m') ->
    count = total + Z.of_nat (length (flat_map (itemsOf remote username) log)).
Proof.
  revert page total m.
  induction fuel as [| fuel IH]; intros page total m; simpl; [discriminate|].
  destruct (search remote username year page) as [msg | body] eqn:Hs;
    [discriminate|].
  pose proof (itemsOf_body _ _ _ _ _ Hs) as Hitems.
  destruct (Z.eqb_spec (Z.of_nat (length (default [] body))) 0) as [Hz | Hnz].
  - intros count m' [= <- <-]. cbn [flat_map].
    rewrite Hitems, app_nil_r. lia.
  - destruct (Z.of_nat (length (default [] body)) <? perPage).
    + intros count m' [= <- <-]. cbn [flat_map].
      now rewrite Hitems, app_nil_r.
    + specialize (IH (page + 1) (total + Z.of_nat (length (default [] body)))
                    (foldItems username (default [] body) m)).
      destruct (fetchPRsForYear_from fuel remote username year (page + 1) _ _)
        as [log out].
      intros count m' Hout. rewrite (IH count m' Hout).
      cbn [flat_map]. rewrite Hitems, length_app. lia.
Qed.

(** X6: the count that [fetchPRsForYear] returns is the number of items on
    the pages it fetched for that year. *)
Theorem fetchPRsForYear_counts_items (fuel : nat) (remote : Remote)
  (username : string) (year : Z) (m m' : ReposMap.t) (log : list (Z * Z))
  (count : Z) :
  fetchPRsForYear fuel remote username year m = (log, Ok (count, m')) ->
  count = Z.of_nat (length (flat_map (itemsOf remote username) log)).
Proof.
  unfold fetchPRsForYear. intros E.
  pose proof (year_count fuel remote username year 1 0 m) as H.
  rewrite E in H. rewrite (H count m' eq_refl). lia.
Qed.

Lemma fetchPRsForYear_counts_items_witness :
  exists log m',
    fetchPRsForYear 4 Ex.remote "alice" 2024 [] = (log, Ok (4, m'))
    /\ 4 = Z.of_nat (length (flat_map (itemsOf Ex.remote "alice") log)).
Proof.
  eexists. eexists. split; [vm_compute; reflexivity|].
  eapply (fetchPRsForYear_counts_items 4 Ex.remote "alice" 2024 []).
  vm_compute. reflexivity.
Defined.

(** X7: within one year the pages are requested as 1, 2, 3, ... without
    gaps, and every page but the last one requested came back with at least
    100 items: the loop goes on only after a full page. *)
Theorem fetchPRsForYear_pages_consecutive_and_full (fuel : nat) (remote : Remote)
  (username : string) (year : Z) (m : ReposMap.t) :
  let log := fst (fetchPRsForYear fuel remote username year m) in
  log = map (fun i => (year, 1 + Z.of_nat i)) (seq 0 (length log))
  /\ Forall (fullPage remote username) (removelast log).
Proof.
  cbv zeta. unfold fetchPRsForYear. split.
  - apply (year_pages_numbered fuel remote username year 1 0 m).
  - apply year_pages_full.
Qed.

Lemma year_requests_ordered (fuel : nat) (remote : Remote) (username : string)
  (year page total : Z) (m : ReposMap.t) :
  let log := fst (fetchPRsForYear_from fuel remote username year page total m) in
  Forall (fun req => fst req = year /\ page <= snd req) log
  /\ StronglySorted requestedBefore log.
Proof.
  cbv zeta. revert page total m.
  induction fuel as [| fuel IH]; intros page total m; simpl;
    [split; constructor|].
  assert (Hone : Forall (fun req => fst req = year /\ page <= snd req) [(year, page)]
                 /\ StronglySorted requestedBefore [(year, page)]).
  { split; repeat constructor. cbn. lia. }
  destruct (search remote username year page) as [msg | body]; [exact Hone|].
  destruct (Z.of_nat (length (default [] body)) =? 0); [exact Hone|].
  destruct (Z.of_nat (length (default [] body)) <? perPage); [exact Hone|].
  specialize (IH (page + 1) (total + Z.of_nat (length (default [] body)))
                (foldItems username (default [] body) m)).
  destruct (fetchPRsForYear_from fuel remote username year (page + 1) _ _)
    as [log out]. cbn [fst] in *. destruct IH as [Hall Hsorted]. split.
  - constructor; [cbn; lia|].
    eapply List.Forall_impl; [| exact Hall]. cbn. intros req [? ?]. lia.
  - constructor; [exact Hsorted|].
    eapply List.Forall_impl; [| exact Hall]. unfold requestedBefore. cbn.
    intros req [? ?]. right. lia.
Qed.

Lemma StronglySorted_app {A} (R : A -> A -> Prop) (l l' : list A) :
  StronglySorted R l -> StronglySorted R l' ->
  (forall a b, In a l -> In b l' -> R a b) ->
  StronglySorted R (l ++ l').
Proof.
  induction 1 as [| x l Hl IH Hx]; intros Hl' Hcross; simpl; [exact Hl'|].
  constructor.
  - apply IH; [exact Hl'|]. intros a b Ha Hb. apply Hcross; [now right | exact Hb].
  - apply Forall_app. split; [exact Hx|].
    apply List.Forall_forall. intros b Hb. apply Hcross; [now left | exact Hb].
Qed.

Lemma years_requests_ordered (fuel : nat) (remote : Remote) (username : string)
  (n : nat) (year : Z) (m : ReposMap.t) :
  let log := fst (fetchYears fuel remote username n year m) in
  Forall (fun req => year - Z.of_nat n < fst req <= year /\ 1 <= snd req) log
  /\ StronglySorted requestedBefore log.
Proof.
  cbv zeta. revert year m.
  induction n as [| n IH]; intros year m; [split; constructor|].
  cbn [fetchYears]. unfold fetchPRsForYear.
  pose proof (year_requests_ordered fuel remote username year 1 0 m) as Hyear.
  destruct (fetchPRsForYear_from fuel remote username year 1 0 m)
    as [log out]. cbn [fst] in Hyear. destruct Hyear as [Hall Hsorted].
  assert (Hbounds : Forall (fun req => year - Z.of_nat (S n) < fst req <= year
                                       /\ 1 <= snd req) log).
  { eapply List.Forall_impl; [| exact Hall]. cbn. intros req [? ?]. lia. }
  destruct out as [[count m1] | msg |]; [| now split | now split].
  specialize (IH (year - 1) m1).
  destruct (fetchYears fuel remote username n (year - 1) m1) as [log' out'].
  cbn [fst] in *. destruct IH as [Hall' Hsorted']. split.
  - apply Forall_app. split; [exact Hbounds|].
    eapply List.Forall_impl; [| exact Hall']. cbn. intros req [? ?]. lia.
  - apply StronglySorted_app; auto.
    rewrite List.Forall_forall in Hall, Hall'.
    intros a b Ha Hb. destruct (Hall a Ha) as [? _].
    destruct (Hall' b Hb) as [? _]. left. lia.
Qed.

(** X8: an aggregation only asks for years from 2015 to the current year
    and for pages from 1 on, later years first and the pages of a year in
    increasing order; so no page is requested twice, and with a current year
    before 2015 nothing is requested at all. *)
Theorem aggregation_requests_in_range_and_order (fuel : nat) (remote : Remote)
  (username : string) (currentYear : Z) :
  let log := fst (fetchContributedRepos fuel remote username currentYear) in
  Forall (fun req => startYear <= fst req <= currentYear /\ 1 <= snd req) log
  /\ StronglySorted requestedBefore log.
Proof.
  cbv zeta. unfold fetchContributedRepos.
  pose proof (years_requests_ordered fuel remote username
                (Z.to_nat (currentYear - startYear + 1)) currentYear []) as H.
  destruct (fetchYears _ _ _ _ _ _) as [log out]. cbn [fst] in H.
  destruct H as [Hall Hsorted].
  assert (Hlog : fst (match out with
                      | Ok reposMap => (log, Ok (ReposMap.values reposMap))
                      | Failed message => (log, Failed message)
                      | OutOfFuel => (log, OutOfFuel)
                      end) = log) by now destruct out.
  rewrite Hlog. split; [| exact Hsorted].
  eapply List.Forall_impl; [| exact Hall]. cbn. intros req [? ?]. lia.
Qed.

(** ** Enrichment and the durable cache *)

Lemma slices_partition {A} (l : list A) (k : Z) :
  Js.slice_to l k ++ Js.slice_from l k = l.
Proof. unfold Js.slice_to, Js.slice_from. apply firstn_skipn. Qed.

Lemma enrich_result (remote : Remote) (times : Times) (username : string)
  (config : Config) (cache : Cache.t) (repos : list Repository) :
  let after := snd (snd (fetchStarsForRepos remote (hotSet config repos) cache)) in
  snd (enrich remote times username config cache repos)
  = mkFetched
      (map (enriched remote (Cache.repos cache)) (hotSet config repos)
       ++ map (backfill (Cache.repos after)) (coldSet config repos))
      (saveCache (at_save times) after)
      (Mem.mk (Some (map (enriched remote (Cache.repos cache)) (hotSet config repos)
                     ++ map (backfill (Cache.repos after)) (coldSet config repos)))
         (at_set times)).
Proof.
  cbv zeta. unfold enrich, coldSet, ranked.
  fold (hotSet config repos).
  pose proof (fetchStarsForRepos_spec remote (hotSet config repos) cache) as [_ Hrs].
  destruct (fetchStarsForRepos remote (hotSet config repos) cache)
    as [log [top after]]. cbn [fst snd] in *. now rewrite Hrs.
Qed.

Lemma enriched_identity (remote : Remote) (c0 : ReposMap.t) (r : Repository) :
  identityFields (enriched remote c0 r) = identityFields r.
Proof. unfold enriched. now destruct (ReposMap.get (fullName r) c0). Qed.

Lemma backfill_identity (c : ReposMap.t) (r : Repository) :
  identityFields (backfill c r) = identityFields r.
Proof. unfold backfill. now destruct (ReposMap.get (fullName r) c). Qed.

Lemma enrich_identityFields (remote : Remote) (times : Times) (username : string)
  (config : Config) (cache : Cache.t) (repos : list Repository) :
  map identityFields
    (fetched_repos (snd (enrich remote times username config cache repos)))
  = map identityFields (ranked repos).
Proof.
  rewrite enrich_result. cbn [fetched_repos].
  rewrite map_app, !map_map.
  rewrite (map_ext _ identityFields (enriched_identity remote _)).
  rewrite (map_ext _ identityFields (backfill_identity _)).
  rewrite <- map_app. unfold hotSet, coldSet, ranked.
  now rewrite slices_partition.
Qed.

Lemma Sorted_map {A B} (f : A -> B) (R : B -> B -> Prop) (l : list A) :
  Sorted (fun a b => R (f a) (f b)) l -> Sorted R (map f l).
Proof.
  induction 1 as [| x l Hl IH Hhd]; simpl; constructor; [exact IH|].
  destruct Hhd; simpl; now constructor.
Qed.

(** X9: enrichment neither drops, duplicates, reorders nor renames a rollup:
    the list that [fetchAndCache] returns has, position by position, the
    name, full name, url and PR count of the ranking of its input, so it is
    a rearrangement of the input in which the PR count never increases. *)
Theorem enrich_keeps_rollups_and_ranking (remote : Remote) (times : Times)
  (username : string) (config : Config) (cache : Cache.t)
  (repos : list Repository) :
  let out := fetched_repos (snd (enrich remote times username config cache repos)) in
  map identityFields out = map identityFields (ranked repos)
  /\ Permutation (map identityFields repos) (map identityFields out)
  /\ Sorted (fun a b => b <= a) (map prCount out).
Proof.
  cbv zeta.
  pose proof (enrich_identityFields remote times username config cache repos) as H.
  split; [exact H|]. split.
  - rewrite H. apply Permutation_map. apply stableSort_Permutation.
  - assert (Hpr : forall l, map prCount l = map (fun t => snd t) (map identityFields l)).
    { intros l. rewrite map_map. reflexivity. }
    rewrite Hpr, H, <- Hpr. apply Sorted_map. apply stableSort_byPrCount_Sorted.
Qed.

Lemma lookup_app_map_r {A B} (l : list B) (f : A -> B) (others : list A)
  (j : nat) (x : A) :
  others !! j = Some x -> (l ++ map f others) !! (length l + j)%nat = Some (f x).
Proof.
  intros H. induction l as [| y l IH]; simpl; [| exact IH].
  revert j H. induction others as [| z others IH]; intros [| j]; simpl;
    try discriminate.
  - now intros [= ->].
  - apply IH.
Qed.

(** X10: a rollup beyond the hot set keeps [isOwned] and
    [lastContributedAt] as aggregated; its stars and visibility are those
    of its entry in the durable cache as saved, or stay as they were when
    there is no entry. *)
Theorem cold_rollup_keeps_ownership_and_recency (remote : Remote) (times : Times)
  (username : string) (config : Config) (cache : Cache.t)
  (repos : list Repository) (j : nat) (r : Repository) :
  coldSet config repos !! j = Some r ->
  let run := snd (enrich remote times username config cache repos) in
  exists r',
    fetched_repos run !! (length (hotSet config repos) + j)%nat = Some r'
    /\ identityFields r' = identityFields r
    /\ isOwned r' = isOwned r
    /\ lastContributedAt r' = lastContributedAt r
    /\ (stars r', isPrivate r')
       = match ReposMap.get (fullName r) (Cache.repos (fetched_cache run)) with
         | Some cached => (stars cached, isPrivate cached)
         | None => (stars r, isPrivate r)
         end.
Proof.
  intros Hj. cbv zeta. rewrite enrich_result. cbn [fetched_repos fetched_cache].
  set (after := snd (snd (fetchStarsForRepos remote (hotSet config repos) cache))).
  exists (backfill (Cache.repos after) r). split.
  - rewrite <- (length_map (enriched remote (Cache.repos cache))).
    now apply lookup_app_map_r.
  - split; [apply backfill_identity|]. unfold backfill, saveCache. cbn [Cache.repos].
    now destruct (ReposMap.get (fullName r) (Cache.repos after)).
Qed.

Lemma cold_rollup_keeps_ownership_and_recency_witness :
  coldSet Sample.budgetOne [Ex.x; Ex.y] !! 0%nat = Some Ex.y
  /\ exists r',
       fetched_repos (snd (enrich Ex.remote Ex.times "alice" Sample.budgetOne
                             Ex.oldCache [Ex.x; Ex.y])) !! 1%nat = Some r'
       /\ isOwned r' = false
       /\ lastContributedAt r' = "2024-03-05T08:30:00Z"
       /\ (stars r', isPrivate r') = (7, true).
Proof.
  split; [reflexivity|].
  destruct (cold_rollup_keeps_ownership_and_recency Ex.remote Ex.times "alice"
              Sample.budgetOne Ex.oldCache [Ex.x; Ex.y] 0 Ex.y eq_refl)
    as (r' & Hr' & _ & Hown & Hlast & Hstars).
  exists r'. split; [exact Hr'|]. split; [exact Hown|]. split; [exact Hlast|].
  exact Hstars.
Defined.

Lemma fetchMissing_cache (remote : Remote) (c0 : ReposMap.t)
  (rs : list Repository) (c : ReposMap.t) :
  let log := fst (fetchMissing remote c0 rs c) in
  let c' := snd (snd (fetchMissing remote c0 rs c)) in
  (forall f, ~ In f log -> ReposMap.get f c' = ReposMap.get f c)
  /\ Forall (fun f => exists r,
               ReposMap.get f c' = Some r /\ fullName r = f
               /\ (stars r, isPrivate r) = fetchRepoData remote f) log.
Proof.
  cbv zeta. revert c. induction rs as [| r rs IH]; intros c; simpl.
  - split; [reflexivity | constructor].
  - destruct (isCached c0 r).
    + specialize (IH c). destruct (fetchMissing remote c0 rs c) as [log [rs' c']].
      exact IH.
    + set (r' := useFetched (fetchRepoData remote (fullName r)) r).
      specialize (IH (ReposMap.set (fullName r) r' c)).
      destruct (fetchMissing remote c0 rs _) as [log [rs' c']].
      cbn [fst snd] in *. destruct IH as [Hother Hlog]. split.
      * intros f Hf. rewrite Hother by (intros Hin; apply Hf; now right).
        apply ReposMapFacts.get_set_ne. intros Heq. apply Hf. now left.
      * constructor; [| exact Hlog].
        destruct (in_dec string_dec (fullName r) log) as [Hin | Hnin].
        -- rewrite List.Forall_forall in Hlog. now apply Hlog.
        -- exists r'. rewrite (Hother _ Hnin), ReposMapFacts.get_set_eq.
           split; [reflexivity|]. split; [reflexivity|].
           unfold r', useFetched. cbn. now destruct (fetchRepoData remote (fullName r)).
Qed.

Lemma fetchStarsForRepos_cache (remote : Remote) (repos : list Repository)
  (cache : Cache.t) :
  let log := fst (fetchStarsForRepos remote repos cache) in
  let after := snd (snd (fetchStarsForRepos remote repos cache)) in
  (forall f, ~ In f log ->
     ReposMap.get f (Cache.repos after) = ReposMap.get f (Cache.repos cache))
  /\ Forall (fun f => exists r,
               ReposMap.get f (Cache.repos after) = Some r /\ fullName r = f
               /\ (stars r, isPrivate r) = fetchRepoData remote f) log
  /\ Cache.username after = Cache.username cache
  /\ Cache.fetchedAt after = Cache.fetchedAt cache.
Proof.
  cbv zeta. unfold fetchStarsForRepos.
  pose proof (fetchMissing_cache remote (Cache.repos cache)
                (copyCached (Cache.repos cache) repos) (Cache.repos cache)) as H.
  destruct (fetchMissing _ _ _ _) as [log [rs' c']]. cbn [fst snd Cache.repos] in *.
  destruct H as [Hother Hlog]. auto.
Qed.

Lemma cached_not_fetched (remote : Remote) (repos : list Repository)
  (cache : Cache.t) (f : string) (c : Repository) :
  ReposMap.get f (Cache.repos cache) = Some c ->
  ~ In f (fst (fetchStarsForRepos remote repos cache)).
Proof.
  intros Hget Hin.
  destruct (fetchStarsForRepos_spec remote repos cache) as [Hlog _].
  rewrite Hlog in Hin. apply toFetch_names in Hin as (r & _ & _ & Hnone).
  congruence.
Qed.

(** X11: every repository that the enricher fetched live is in the durable
    cache afterwards, under its full name, with the stars and visibility
    that the fetch gave (0 and not private when the fetch failed). *)
Theorem fetched_rollups_are_cached (remote : Remote) (repos : list Repository)
  (cache : Cache.t) :
  Forall (fun f => exists r,
            ReposMap.get f
              (Cache.repos (snd (snd (fetchStarsForRepos remote repos cache))))
            = Some r
            /\ fullName r = f
            /\ (stars r, isPrivate r) = fetchRepoData remote f)
    (fst (fetchStarsForRepos remote repos cache)).
Proof. apply fetchStarsForRepos_cache. Qed.

(** X12: the enricher never overwrites or removes an entry that the durable
    cache already had. *)
Theorem enrichment_keeps_existing_cache_entries (remote : Remote)
  (repos : list Repository) (cache : Cache.t) (f : string) (c : Repository) :
  ReposMap.get f (Cache.repos cache) = Some c ->
  ReposMap.get f (Cache.repos (snd (snd (fetchStarsForRepos remote repos cache))))
  = Some c.
Proof.
  intros Hget.
  destruct (fetchStarsForRepos_cache remote repos cache) as [Hother _].
  rewrite Hother; [exact Hget|]. now apply (cached_not_fetched _ _ _ _ c).
Qed.

Lemma enrichment_keeps_existing_cache_entries_witness :
  ReposMap.get "bob/y" (Cache.repos Ex.oldCache) = Some Ex.bobCached
  /\ fst (fetchStarsForRepos Ex.remote [Ex.x; Ex.bobFresh] Ex.oldCache) = ["alice/x"]
  /\ ReposMap.get "bob/y"
       (Cache.repos (snd (snd (fetchStarsForRepos Ex.remote [Ex.x; Ex.bobFresh]
                                 Ex.oldCache))))
     = Some Ex.bobCached.
Proof.
  split; [reflexivity|]. split; [reflexivity|].
  exact (enrichment_keeps_existing_cache_entries Ex.remote [Ex.x; Ex.bobFresh]
           Ex.oldCache "bob/y" Ex.bobCached eq_refl).
Defined.

(** X13: enriching the result once more against the cache that the first
    pass left behind makes no live request at all. *)
Theorem second_enrichment_fetches_nothing (remote : Remote)
  (repos : list Repository) (cache : Cache.t) :
  let once := snd (fetchStarsForRepos remote repos cache) in
  fst (fetchStarsForRepos remote (fst once) (snd once)) = [].
Proof.
  cbv zeta.
  destruct (fetchStarsForRepos_spec remote repos cache) as [Hlog Hrs].
  destruct (fetchStarsForRepos_cache remote repos cache) as (Hother & Hfetched & _).
  set (once := snd (fetchStarsForRepos remote repos cache)) in *.
  destruct (fetchStarsForRepos_spec remote (fst once) (snd once)) as [-> _].
  destruct (toFetch (fst once) (snd once)) as [| r rest] eqn:E; [reflexivity|].
  exfalso.
  assert (Hin : In (fullName r) (map fullName (toFetch (fst once) (snd once))))
    by (rewrite E; now left).
  apply toFetch_names in Hin as (r1 & Hr1 & Hname & Hnone).
  rewrite Hrs in Hr1. apply in_map_iff in Hr1 as (r0 & <- & Hr0).
  assert (Hname0 : fullName r0 = fullName r).
  { rewrite <- Hname. pose proof (enriched_identity remote (Cache.repos cache) r0) as Hid.
    unfold identityFields in Hid. congruence. }
  destruct (in_dec string_dec (fullName r)
              (fst (fetchStarsForRepos remote repos cache))) as [Hf | Hnf].
  - rewrite List.Forall_forall in Hfetched.
    destruct (Hfetched _ Hf) as (r2 & Hget & _). congruence.
  - rewrite (Hother _ Hnf) in Hnone.
    apply Hnf. rewrite Hlog. apply toFetch_names. exists r0. auto.
Qed.

Lemma fetchMissing_wellKeyed (remote : Remote) (c0 : ReposMap.t)
  (rs : list Repository) (c : ReposMap.t) :
  wellKeyed c -> wellKeyed (snd (snd (fetchMissing remote c0 rs c))).
Proof.
  revert c. induction rs as [| r rs IH]; intros c Hc; simpl; [exact Hc|].
  destruct (isCached c0 r).
  - specialize (IH c Hc). now destruct (fetchMissing remote c0 rs c) as [log [rs' c']].
  - specialize (IH (ReposMap.set (fullName r)
                      (useFetched (fetchRepoData remote (fullName r)) r) c)).
    destruct (fetchMissing remote c0 rs _) as [log [rs' c']].
    apply IH. now apply ReposMapInv.set_wellKeyed.
Qed.

Lemma enrich_wellKeyed (remote : Remote) (times : Times) (username : string)
  (config : Config) (cache : Cache.t) (repos : list Repository) :
  wellKeyed (Cache.repos cache) ->
  wellKeyed (Cache.repos (fetched_cache
                            (snd (enrich remote times username config cache repos)))).
Proof.
  intros Hwk. rewrite enrich_result. cbn [fetched_cache].
  unfold saveCache, fetchStarsForRepos. cbn [Cache.repos].
  pose proof (fetchMissing_wellKeyed remote (Cache.repos cache)
                (copyCached (Cache.repos cache) (hotSet config repos))
                (Cache.repos cache) Hwk) as H.
  now destruct (fetchMissing _ _ _ _) as [log [rs' c']].
Qed.

(** X14: [fetchAndCache] keeps the durable cache well keyed: if the keys of
    the cache it loaded are distinct and each is the full name of its entry,
    the same holds of the cache it saves.  The empty cache is well keyed, so
    every cache file written by this program is. *)
Theorem saved_cache_stays_well_keyed (fuel : nat) (remote : Remote)
  (currentYear : Z) (times : Times) (username : string) (config : Config)
  (cache : Cache.t) (fetched : Fetched) :
  snd (fetchAndCache fuel remote currentYear times username config cache)
    = Ok fetched ->
  wellKeyed (Cache.repos cache) ->
  wellKeyed (Cache.repos (fetched_cache fetched))
  /\ wellKeyed (Cache.repos (loadCache None)).
Proof.
  intros Hrun Hwk. split; [| apply wellKeyed_nil].
  unfold fetchAndCache in Hrun.
  destruct (negb (isCacheStale (at_check times) cache)
            && String.eqb (Cache.username cache) username
            && (Z.of_nat (length (Cache.repos cache)) >? 0)).
  - pose proof (enrich_wellKeyed remote times username config cache
                  (ReposMap.values (Cache.repos cache)) Hwk) as H.
    destruct (enrich _ _ _ _ _ _) as [log fetched']. cbn [snd] in *.
    injection Hrun as <-. exact H.
  - destruct (fetchContributedRepos fuel remote username currentYear)
      as [searches [repos | msg |]]; try discriminate.
    pose proof (enrich_wellKeyed remote times username config
                  (Cache.mk username (Cache.repos cache) (Cache.fetchedAt cache))
                  repos Hwk) as H.
    destruct (enrich _ _ _ _ _ _) as [log fetched']. cbn [snd] in *.
    injection Hrun as <-. exact H.
Qed.

Lemma saved_cache_stays_well_keyed_witness :
  exists fetched,
    snd (fetchAndCache 4 Ex.remote 2024 Ex.times "alice" Ex.aliceAll Ex.oldCache)
      = Ok fetched
    /\ map fst (Cache.repos (fetched_cache fetched)) = ["bob/y"; "alice/x"]
    /\ wellKeyed (Cache.repos (fetched_cache fetched)).
Proof.
  eexists. split; [vm_compute; reflexivity|]. split; [reflexivity|].
  refine (proj1 (saved_cache_stays_well_keyed 4 Ex.remote 2024 Ex.times "alice"
                   Ex.aliceAll Ex.oldCache _ _ _)).
  - vm_compute. reflexivity.
  - split; [repeat constructor; intros [] | repeat constructor].
Defined.

Lemma wellKeyed_get (m : ReposMap.t) (k : string) (v : Repository) :
  wellKeyed m -> In (k, v) m -> ReposMap.get k m = Some v.
Proof.
  intros [Hnodup _]. induction m as [| [k' v'] m IH]; simpl; [intros []|].
  inversion Hnodup as [| ? ? Hnotin Hrest]; subst.
  intros [[= -> ->] | Hin].
  - now rewrite String.eqb_refl.
  - destruct (String.eqb k' k) eqn:E; [| now apply IH].
    apply String.eqb_eq in E. subst k'. exfalso. apply Hnotin.
    apply in_map_iff. now exists (k, v).
Qed.

Lemma wellKeyed_get_value (m : ReposMap.t) (r : Repository) :
  wellKeyed m -> In r (ReposMap.values m) -> ReposMap.get (fullName r) m = Some r.
Proof.
  intros Hwk Hin. unfold ReposMap.values in Hin.
  apply in_map_iff in Hin as ([k v] & <- & Hin). cbn [snd].
  destruct Hwk as [Hnodup Hkeys].
  pose proof (proj1 (List.Forall_forall _ _) Hkeys _ Hin) as Hk. cbn in Hk.
  rewrite Hk. now apply wellKeyed_get.
Qed.

Lemma useCached_self (r : Repository) : useCached r r = r.
Proof. now destruct r. Qed.

Lemma map_id_on {A} (f : A -> A) (l : list A) :
  (forall x, In x l -> f x = x) -> map f l = l.
Proof.
  induction l as [| x l IH]; intros H; simpl; [reflexivity|].
  rewrite (H x (or_introl eq_refl)), IH; [reflexivity|].
  intros y Hy. apply H. now right.
Qed.

Lemma fetchMissing_all_cached (remote : Remote) (c0 : ReposMap.t)
  (rs : list Repository) (c : ReposMap.t) :
  (forall r, In r rs -> isCached c0 r = true) ->
  fetchMissing remote c0 rs c = ([], (rs, c)).
Proof.
  induction rs as [| r rs IH]; intros H; simpl; [reflexivity|].
  rewrite (H r (or_introl eq_refl)), IH; [reflexivity|].
  intros y Hy. apply H. now right.
Qed.

Lemma fetchStarsForRepos_own_entries (remote : Remote) (repos : list Repository)
  (cache : Cache.t) :
  (forall r, In r repos -> ReposMap.get (fullName r) (Cache.repos cache) = Some r) ->
  fetchStarsForRepos remote repos cache = ([], (repos, cache)).
Proof.
  intros Hown. unfold fetchStarsForRepos.
  assert (Hcopy : copyCached (Cache.repos cache) repos = repos).
  { unfold copyCached. apply map_id_on. intros r Hr.
    rewrite (Hown r Hr). apply useCached_self. }
  rewrite Hcopy, fetchMissing_all_cached.
  - now destruct cache.
  - intros r Hr. rewrite isCached_get. now rewrite (Hown r Hr).
Qed.

Lemma In_slice_to {A} (l : list A) (k : Z) (x : A) : In x (Js.slice_to l k) -> In x l.
Proof.
  unfold Js.slice_to. intros H.
  rewrite <- (firstn_skipn (Js.clamp_index (length l) k) l).
  apply in_or_app. now left.
Qed.

Lemma In_slice_from {A} (l : list A) (k : Z) (x : A) :
  In x (Js.slice_from l k) -> In x l.
Proof.
  unfold Js.slice_from. intros H.
  rewrite <- (firstn_skipn (Js.clamp_index (length l) k) l).
  apply in_or_app. now right.
Qed.

Lemma In_ranked (repos : list Repository) (r : Repository) :
  In r (ranked repos) -> In r repos.
Proof.
  unfold ranked. apply Permutation_in. symmetry. apply stableSort_Permutation.
Qed.

(** X15: when the durable cache is well keyed, not older than 24 hours,
    written for the same user and not empty, [fetchAndCache] makes no remote
    request of either kind; it returns the cached rollups ranked by PR count
    and saves the cache unchanged but for its new timestamp. *)
Theorem usable_durable_cache_needs_no_request (fuel : nat) (remote : Remote)
  (currentYear : Z) (times : Times) (username : string) (config : Config)
  (cache : Cache.t) :
  isCacheStale (at_check times) cache = false ->
  Cache.username cache = username ->
  Cache.repos cache <> [] ->
  wellKeyed (Cache.repos cache) ->
  fetchAndCache fuel remote currentYear times username config cache
  = (mkLog [] [],
     Ok (mkFetched (ranked (ReposMap.values (Cache.repos cache)))
           (saveCache (at_save times) cache)
           (Mem.mk (Some (ranked (ReposMap.values (Cache.repos cache))))
              (at_set times)))).
Proof.
  intros Hfresh Huser Hrepos Hwk. unfold fetchAndCache.
  rewrite Hfresh, Huser, String.eqb_refl. cbn [negb andb].
  assert (Hlen : (Z.of_nat (length (Cache.repos cache)) >? 0) = true).
  { destruct (Cache.repos cache); [congruence | reflexivity]. }
  rewrite Hlen.
  set (values := ReposMap.values (Cache.repos cache)).
  assert (Hown : forall r, In r (ranked values) ->
                   ReposMap.get (fullName r) (Cache.repos cache) = Some r).
  { intros r Hr. apply wellKeyed_get_value; [exact Hwk|]. now apply In_ranked. }
  assert (Hstars : fetchStarsForRepos remote (hotSet config values) cache
                   = ([], (hotSet config values, cache))).
  { apply fetchStarsForRepos_own_entries. intros r Hr. apply Hown.
    unfold hotSet in Hr. now apply In_slice_to in Hr. }
  pose proof (enrich_result remote times username config cache values) as Hres.
  cbv zeta in Hres. rewrite Hstars in Hres. cbn [snd] in Hres.
  assert (Hlog : fst (enrich remote times username config cache values) = []).
  { destruct (enrich_spec remote times username config cache values) as [-> _].
    destruct (fetchStarsForRepos_spec remote (hotSet config values) cache) as [<- _].
    now rewrite Hstars. }
  destruct (enrich remote times username config cache values) as [log fetched].
  cbn [fst snd] in *. subst log fetched.
  assert (Hsame : map (enriched remote (Cache.repos cache)) (hotSet config values)
                  ++ map (backfill (Cache.repos cache)) (coldSet config values)
                  = ranked values).
  { rewrite !map_id_on.
    - unfold hotSet, coldSet, ranked. apply slices_partition.
    - intros r Hr. unfold backfill. rewrite Hown; [now destruct r|].
      unfold coldSet in Hr. now apply In_slice_from in Hr.
    - intros r Hr. unfold enriched. rewrite Hown; [apply useCached_self|].
      unfold hotSet in Hr. now apply In_slice_to in Hr. }
  now rewrite Hsame.
Qed.

Lemma usable_durable_cache_needs_no_request_witness :
  isCacheStale (at_check Ex.times) Sample.durable = false
  /\ Cache.repos Sample.durable <> []
  /\ wellKeyed (Cache.repos Sample.durable)
  /\ fetchAndCache 0 Sample.down 2024 Ex.times "alice" Ex.aliceAll Sample.durable
     = (mkLog [] [],
        Ok (mkFetched [Ex.x; Ex.y] (saveCache 2000 Sample.durable)
              (Mem.mk (Some [Ex.x; Ex.y]) 3000))).
Proof.
  assert (Hwk : wellKeyed (Cache.repos Sample.durable)).
  { split; [| repeat constructor].
    repeat constructor; cbn; [intros [H | []]; discriminate | intros []]. }
  split; [reflexivity|]. split; [discriminate|]. split; [exact Hwk|].
  exact (usable_durable_cache_needs_no_request 0 Sample.down 2024 Ex.times "alice"
           Ex.aliceAll Sample.durable eq_refl eq_refl ltac:(discriminate) Hwk).
Defined.

Lemma set_absent (k : string) (v : Repository) (m : ReposMap.t) :
  ReposMap.get k m = None -> ReposMap.set k v m = m ++ [(k, v)].
Proof.
  induction m as [| [k' v'] m IH]; simpl; [reflexivity|].
  destruct (String.eqb k' k); [discriminate|]. intros H. now rewrite IH.
Qed.

Lemma get_snoc_other (k k' : string) (v : Repository) (m : ReposMap.t) :
  k' <> k -> ReposMap.get k (m ++ [(k', v)]) = ReposMap.get k m.
Proof.
  intros Hne. induction m as [| [k0 v0] m IH]; simpl.
  - destruct (String.eqb k' k) eqn:E; [| reflexivity].
    apply String.eqb_eq in E. contradiction.
  - now rewrite IH.
Qed.

Lemma fetchMissing_nothing_cached (remote : Remote) (rs : list Repository)
  (c : ReposMap.t) :
  List.NoDup (map fullName rs) ->
  (forall r, In r rs -> ReposMap.get (fullName r) c = None) ->
  snd (snd (fetchMissing remote [] rs c))
  = c ++ map (fun r => (fullName r, enriched remote [] r)) rs.
Proof.
  revert c. induction rs as [| r rs IH]; intros c Hnodup Hnone; simpl.
  - now rewrite app_nil_r.
  - inversion Hnodup as [| ? ? Hnotin Hrest]; subst.
    set (r' := useFetched (fetchRepoData remote (fullName r)) r).
    specialize (IH (ReposMap.set (fullName r) r' c) Hrest).
    destruct (fetchMissing remote [] rs _) as [log [rs' c']].
    cbn [snd] in *. rewrite IH.
    + rewrite set_absent by (apply Hnone; now left).
      rewrite <- app_assoc. reflexivity.
    + intros r2 Hr2. rewrite set_absent by (apply Hnone; now left).
      rewrite get_snoc_other; [apply Hnone; now right|].
      intros Heq. apply Hnotin. rewrite Heq. now apply in_map.
Qed.

Lemma clamp_index_le (len : nat) (k : Z) : (Js.clamp_index len k <= len)%nat.
Proof. unfold Js.clamp_index. destruct (Z.ltb_spec k 0); lia. Qed.

Lemma firstn_length_app {A} (l l' : list A) : firstn (length l) (l ++ l') = l.
Proof. induction l as [| x l IH]; simpl; [now destruct l' | now rewrite IH]. Qed.

Lemma hotSet_NoDup (config : Config) (repos : list Repository) :
  List.NoDup (map fullName repos) -> List.NoDup (map fullName (hotSet config repos)).
Proof.
  intros Hnodup.
  assert (Hranked : List.NoDup (map fullName (ranked repos))).
  { eapply Permutation_NoDup; [| exact Hnodup].
    apply Permutation_map, stableSort_Permutation. }
  unfold hotSet, Js.slice_to. fold (ranked repos).
  rewrite <- (firstn_skipn (Js.clamp_index (length (ranked repos))
                              (budgetOf config)) (ranked repos)) in Hranked.
  rewrite map_app in Hranked. now apply NoDup_app_remove_r in Hranked.
Qed.

Lemma enrich_from_empty_cache (remote : Remote) (times : Times) (username : string)
  (config : Config) (cache : Cache.t) (repos : list Repository) :
  Cache.repos cache = [] ->
  List.NoDup (map fullName repos) ->
  ReposMap.values
    (Cache.repos (fetched_cache
                    (snd (enrich remote times username config cache repos))))
  = Js.slice_to
      (fetched_repos (snd (enrich remote times username config cache repos)))
      (budgetOf config).
Proof.
  intros Hempty Hnodup. rewrite enrich_result. cbn [fetched_cache fetched_repos].
  unfold saveCache. cbn [Cache.repos].
  set (top := map (enriched remote (Cache.repos cache)) (hotSet config repos)).
  assert (Hsaved : ReposMap.values
                     (Cache.repos (snd (snd (fetchStarsForRepos remote
                                               (hotSet config repos) cache))))
                   = top).
  { unfold fetchStarsForRepos, top. rewrite Hempty.
    assert (Hcopy : copyCached [] (hotSet config repos) = hotSet config repos)
      by (unfold copyCached; now apply map_id_on).
    rewrite Hcopy.
    pose proof (fetchMissing_nothing_cached remote (hotSet config repos) []
                  (hotSet_NoDup config repos Hnodup) (fun _ _ => eq_refl)) as H.
    destruct (fetchMissing remote [] (hotSet config repos) []) as [log [rs' c']].
    cbn [snd Cache.repos] in *. rewrite H. unfold ReposMap.values.
    cbn [app]. rewrite map_map. reflexivity. }
  rewrite Hsaved. unfold Js.slice_to.
  assert (Hlen : Js.clamp_index
                   (length (top ++ map (backfill
                       (Cache.repos (snd (snd (fetchStarsForRepos remote
                                                 (hotSet config repos) cache)))))
                       (coldSet config repos)))
                   (budgetOf config) = length top).
  { unfold top. rewrite length_app, !length_map.
    unfold hotSet, coldSet, Js.slice_to, Js.slice_from. fold (ranked repos).
    rewrite length_firstn, length_skipn.
    pose proof (clamp_index_le (length (ranked repos)) (budgetOf config)).
    replace (Nat.min (Js.clamp_index (length (ranked repos)) (budgetOf config))
               (length (ranked repos))
             + (length (ranked repos)
                - Js.clamp_index (length (ranked repos)) (budgetOf config)))%nat
      with (length (ranked repos)) by lia.
    lia. }
  rewrite Hlen. symmetry. apply firstn_length_app.
Qed.

(** X16: starting without a cache file, a successful [fetchAndCache] saves
    in the durable cache exactly the hot set as enriched, that is the first
    [budget] rollups of the list it returns, and none of the rollups beyond
    it. *)
Theorem first_durable_cache_holds_only_the_hot_set (fuel : nat) (remote : Remote)
  (currentYear : Z) (times : Times) (username : string) (config : Config)
  (fetched : Fetched) :
  snd (fetchAndCache fuel remote currentYear times username config (loadCache None))
    = Ok fetched ->
  ReposMap.values (Cache.repos (fetched_cache fetched))
  = Js.slice_to (fetched_repos fetched) (budgetOf config).
Proof.
  unfold fetchAndCache, loadCache. cbn [default isCacheStale Cache.fetchedAt
    Cache.empty negb andb Cache.repos].
  destruct (fetchContributedRepos fuel remote username currentYear)
    as [searches [repos | msg |]] eqn:E; try discriminate.
  assert (Hnodup : List.NoDup (map fullName repos)).
  { rewrite (fetchContributedRepos_folds _ _ _ _ _ _ E).
    pose proof (foldItems_wellKeyed username
                  (flat_map (itemsOf remote username) searches) [] wellKeyed_nil)
      as Hwk.
    rewrite (wellKeyed_names _ Hwk). apply Hwk. }
  pose proof (enrich_from_empty_cache remote times username config
                (Cache.mk username [] None) repos eq_refl Hnodup) as H.
  destruct (enrich _ _ _ _ _ _) as [log fetched']. cbn [snd] in *.
  now intros [= <-].
Qed.

Lemma first_durable_cache_holds_only_the_hot_set_witness :
  exists fetched,
    snd (fetchAndCache 4 Ex.remote 2024 Ex.times "alice" Sample.budgetOne
           (loadCache None)) = Ok fetched
    /\ map fullName (fetched_repos fetched) = ["alice/x"; "bob/y"]
    /\ map fst (Cache.repos (fetched_cache fetched)) = ["alice/x"]
    /\ ReposMap.values (Cache.repos (fetched_cache fetched))
       = Js.slice_to (fetched_repos fetched) (budgetOf Sample.budgetOne).
Proof.
  eexists. split; [vm_compute; reflexivity|].
  split; [reflexivity|]. split; [reflexivity|].
  apply (first_durable_cache_holds_only_the_hot_set 4 Ex.remote 2024 Ex.times
           "alice" Sample.budgetOne).
  vm_compute. reflexivity.
Defined.

(** ** Projection: filter, sort and limit *)

Lemma secondPass_self (config : Config) (repos : list Repository)
  (incl : list string) :
  (forall f, In f incl -> In f (include config)) ->
  fold_left (pushIncluded config
               (map fullName (List.filter (keeps config) repos)) repos)
    incl (List.filter (keeps config) repos)
  = List.filter (keeps config) repos.
Proof.
  induction incl as [| f incl IH]; intros Hincl; simpl; [reflexivity|].
  assert (Hstep : pushIncluded config
                    (map fullName (List.filter (keeps config) repos)) repos
                    (List.filter (keeps config) repos) f
                  = List.filter (keeps config) repos).
  { unfold pushIncluded.
    destruct (has (map fullName (List.filter (keeps config) repos)) f) eqn:Hfs;
      [reflexivity|].
    destruct (has (exclude config) f) eqn:Hex; [reflexivity|]. cbn [negb andb].
    destruct (List.find _ repos) as [r|] eqn:Hfind; [| reflexivity].
    apply find_fullName in Hfind as [Hin Hname]. exfalso.
    assert (Hkeep : keeps config r = true).
    { apply keeps_included; rewrite Hname; [exact Hex|].
      apply has_In, Hincl. now left. }
    assert (has (map fullName (List.filter (keeps config) repos)) f = true).
    { apply has_In. rewrite <- Hname. apply in_map, filter_In. auto. }
    congruence. }
  rewrite Hstep. apply IH. intros g Hg. apply Hincl. now right.
Qed.

(** X17: called with the list itself as the full set, as [getRepos] does,
    [filterRepos] is the plain filter: the include pass adds nothing, so the
    output is the input with some rollups removed, in the input's order. *)
Theorem filterRepos_on_full_set_only_removes (repos : list Repository)
  (config : Config) :
  filterRepos repos config repos = List.filter (keeps config) repos
  /\ sublist (filterRepos repos config repos) repos.
Proof.
  assert (H : filterRepos repos config repos = List.filter (keeps config) repos)
    by (unfold filterRepos; now apply secondPass_self).
  split; [exact H|]. rewrite H. clear H.
  induction repos as [| r repos IH]; simpl; [constructor|].
  destruct (keeps config r); [now apply sublist_skip | now apply sublist_cons].
Qed.

(** X18: every rollup in the output of [filterRepos] is not excluded, and
    is either explicitly included or allowed by both the scope rule and the
    visibility rule. *)
Theorem filterRepos_output_obeys_rules (repos : list Repository) (config : Config)
  (allRepos : list Repository) :
  Forall (fun r =>
            has (exclude config) (fullName r) = false
            /\ (has (include config) (fullName r) = true
                \/ (scopeAllows config r /\ visibilityAllows config r)))
    (filterRepos repos config allRepos).
Proof.
  apply List.Forall_forall. intros r Hr. apply filterRepos_sound in Hr.
  unfold keeps in Hr. unfold scopeAllows, visibilityAllows.
  destruct (has (exclude config) (fullName r)); [discriminate|].
  split; [reflexivity|].
  destruct (has (include config) (fullName r)); [now left|]. right.
  destruct (scope config), (isOwned r), (includePrivate config), (isPrivate r);
    try discriminate; auto.
Qed.

Section SortByKey.

Variables (A : Type) (compare : A -> A -> Z) (key : A -> Z).
Hypothesis compare_key : forall a b, compare a b = key b - key a.

Lemma sortInsert_key_Sorted (x : A) (l : list A) :
  Sorted (fun a b => key b <= key a) l ->
  Sorted (fun a b => key b <= key a) (sortInsert compare x l).
Proof.
  induction 1 as [| y l Hl IH Hhd]; simpl; [repeat constructor|].
  rewrite compare_key.
  destruct (Z.gtb_spec (key y - key x) 0) as [Hgt | Hle].
  - constructor; [exact IH|].
    destruct l as [| z l]; simpl.
    + constructor. lia.
    + rewrite compare_key.
      destruct (Z.gtb_spec (key z - key x) 0); constructor;
        [now inversion Hhd | lia].
  - constructor; [now constructor | constructor; lia].
Qed.

Lemma stableSort_key_Sorted (l : list A) :
  Sorted (fun a b => key b <= key a) (stableSort compare l).
Proof.
  unfold stableSort. induction l as [| x l IH]; simpl; [constructor|].
  now apply sortInsert_key_Sorted.
Qed.

Lemma sortInsert_key_stable (k : Z) (x : A) (l : list A) :
  List.filter (fun a => key a =? k) (sortInsert compare x l)
  = List.filter (fun a => key a =? k) (x :: l).
Proof.
  induction l as [| y l IH]; [reflexivity|].
  cbn [sortInsert]. rewrite compare_key.
  destruct (Z.gtb_spec (key y - key x) 0) as [Hgt | Hle]; [| reflexivity].
  cbn [List.filter] in *. rewrite IH.
  destruct (Z.eqb_spec (key x) k), (Z.eqb_spec (key y) k); try reflexivity. lia.
Qed.

Lemma stableSort_key_stable (k : Z) (l : list A) :
  List.filter (fun a => key a =? k) (stableSort compare l)
  = List.filter (fun a => key a =? k) l.
Proof.
  unfold stableSort. induction l as [| x l IH]; [reflexivity|].
  cbn [fold_right]. rewrite sortInsert_key_stable. cbn [List.filter].
  now rewrite IH.
Qed.

End SortByKey.

Lemma sortInsert_ext {A} (P : A -> Prop) (c c' : A -> A -> Z) (x : A)
  (l : list A) :
  (forall a b, P a -> P b -> c a b = c' a b) ->
  P x -> Forall P l -> sortInsert c x l = sortInsert c' x l.
Proof.
  intros Hc Hx Hl. induction Hl as [| y l Hy _ IH]; [reflexivity|].
  cbn [sortInsert]. now rewrite (Hc x y Hx Hy), IH.
Qed.

Lemma sortInsert_Forall {A} (P : A -> Prop) (c : A -> A -> Z) (x : A)
  (l : list A) :
  P x -> Forall P l -> Forall P (sortInsert c x l).
Proof.
  intros Hx Hl. induction Hl as [| y l Hy Hl IH]; cbn [sortInsert];
    [now repeat constructor|].
  destruct (c x y >? 0); repeat constructor; auto.
Qed.

Lemma stableSort_ext {A} (P : A -> Prop) (c c' : A -> A -> Z) (l : list A) :
  (forall a b, P a -> P b -> c a b = c' a b) ->
  Forall P l -> stableSort c l = stableSort c' l.
Proof.
  intros Hc Hl. unfold stableSort.
  induction Hl as [| x l Hx Hl IH]; [reflexivity|].
  cbn [fold_right]. rewrite IH.
  apply (sortInsert_ext P); [exact Hc | exact Hx |].
  clear IH. induction Hl as [| y l Hy _ IH]; cbn [fold_right]; [constructor|].
  now apply sortInsert_Forall.
Qed.

Lemma maxExact_below_infinity : maxExact < Number.infinity.
Proof. reflexivity. Qed.

Lemma round_exact (z : Z) : 0 <= z <= maxExact -> Number.round z = z.
Proof.
  intros Hz. pose proof maxExact_below_infinity as Hinf.
  unfold Number.round, Number.nearest.
  rewrite (Z.abs_eq z) by lia.
  change (2 ^ 53) with maxExact.
  destruct (Z.leb_spec z maxExact) as [_ | Hgt]; [| lia].
  rewrite Z.min_l by lia.
  destruct (Z.ltb_spec z 0); [lia | reflexivity].
Qed.

Lemma finite_exact (z : Z) :
  0 <= z <= maxExact -> (Z.abs z =? Number.infinity) = false.
Proof.
  intros Hz. pose proof maxExact_below_infinity.
  rewrite (Z.abs_eq z) by lia. apply Z.eqb_neq. lia.
Qed.

Lemma score_exact (r : Repository) :
  exactRange r ->
  Number.mul (stars r) (Number.square (prCount r))
  = Some (stars r * prCount r ^ 2).
Proof.
  intros (Hs & Hp & Hsq & Hscore).
  assert (Hpp : prCount r * prCount r = prCount r ^ 2) by ring.
  unfold Number.square. rewrite Hpp, round_exact by nia.
  unfold Number.mul.
  rewrite (finite_exact (prCount r ^ 2)), (finite_exact (stars r)) by nia.
  rewrite !andb_false_r. cbn [orb]. now rewrite round_exact by nia.
Qed.

Lemma comparator_key (localeCompare : string -> string -> Z) (config : Config) :
  sortBy config <> SortRecent ->
  forall a b, exactRange a -> exactRange b ->
    comparator localeCompare config a b
    = sortKey (sortBy config) b - sortKey (sortBy config) a.
Proof.
  intros Hby a b Ha Hb. unfold comparator, sortKey.
  destruct (sortBy config); try reflexivity; [| contradiction].
  now rewrite (score_exact a Ha), (score_exact b Hb).
Qed.

Lemma sortRepos_by_key (localeCompare : string -> string -> Z)
  (repos : list Repository) (config : Config) :
  sortBy config <> SortRecent ->
  Forall exactRange repos ->
  sortRepos localeCompare repos config
  = stableSort (fun a b => sortKey (sortBy config) b - sortKey (sortBy config) a)
      repos.
Proof.
  intros Hby Hexact. unfold sortRepos.
  apply (stableSort_ext exactRange); [| exact Hexact].
  intros a b. now apply comparator_key.
Qed.

Lemma exactRange_key (order : SortBy) (r : Repository) :
  exactRange r -> 0 <= sortKey order r <= maxExact.
Proof.
  unfold exactRange, maxExact. intros (Hs & Hp & Hsq & Hscore).
  destruct order; cbn [sortKey]; try lia; nia.
Qed.

(** X19: for the orders by stars, by contributions and by combined score,
    on rollups whose stars, PR count and score are non-negative and at most
    2^53 (where the code's binary64 arithmetic is exact), [sortRepos]
    returns a rearrangement of its input in which the ranking number (stars,
    PR count, or stars times the square of the PR count) never increases;
    every ranking number compared lies between 0 and 2^53. *)
Theorem sortRepos_is_a_descending_rearrangement
  (localeCompare : string -> string -> Z) (repos : list Repository)
  (config : Config) :
  sortBy config <> SortRecent ->
  Forall exactRange repos ->
  Permutation repos (sortRepos localeCompare repos config)
  /\ Sorted (fun a b => sortKey (sortBy config) b <= sortKey (sortBy config) a)
       (sortRepos localeCompare repos config)
  /\ Forall (fun r => 0 <= sortKey (sortBy config) r <= maxExact)
       (sortRepos localeCompare repos config).
Proof.
  intros Hby Hexact. rewrite (sortRepos_by_key _ _ _ Hby Hexact).
  split; [apply stableSort_Permutation|].
  split; [now apply stableSort_key_Sorted|].
  apply List.Forall_forall. intros r Hr. apply exactRange_key.
  rewrite List.Forall_forall in Hexact. apply Hexact.
  eapply Permutation_in; [symmetry; apply stableSort_Permutation | exact Hr].
Qed.

Lemma sortRepos_is_a_descending_rearrangement_witness :
  sortBy (mkConfig ScopeAll SortAll false 0 [] [] None None) <> SortRecent
  /\ Forall exactRange [Ex.x; Ex.y]
  /\ sortRepos Ex.collate [Ex.x; Ex.y] (mkConfig ScopeAll SortAll false 0 [] [] None None)
     = [Ex.y; Ex.x]
  /\ Sorted (fun a b => sortKey SortAll b <= sortKey SortAll a)
       (sortRepos Ex.collate [Ex.x; Ex.y]
          (mkConfig ScopeAll SortAll false 0 [] [] None None)).
Proof.
  assert (Hexact : Forall exactRange [Ex.x; Ex.y])
    by (repeat constructor; discriminate).
  split; [discriminate|]. split; [exact Hexact|]. split; [reflexivity|].
  exact (proj1 (proj2 (sortRepos_is_a_descending_rearrangement Ex.collate
                         [Ex.x; Ex.y]
                         (mkConfig ScopeAll SortAll false 0 [] [] None None)
                         ltac:(discriminate) Hexact))).
Defined.

(** X20: the sort is stable: for the three numeric orders, on rollups whose
    stars, PR count and score are non-negative and at most 2^53 (where the
    code's binary64 arithmetic is exact), the rollups that share one ranking
    number come out in the order in which they went in. *)
Theorem sortRepos_keeps_order_of_ties
  (localeCompare : string -> string -> Z) (repos : list Repository)
  (config : Config) (k : Z) :
  sortBy config <> SortRecent ->
  Forall exactRange repos ->
  List.filter (fun r => sortKey (sortBy config) r =? k)
    (sortRepos localeCompare repos config)
  = List.filter (fun r => sortKey (sortBy config) r =? k) repos.
Proof.
  intros Hby Hexact. rewrite (sortRepos_by_key _ _ _ Hby Hexact).
  now apply stableSort_key_stable.
Qed.

Lemma sortRepos_keeps_order_of_ties_witness :
  sortBy Ex.aliceAll <> SortRecent
  /\ Forall exactRange (Ex.rollups 3 ++ [Ex.y])
  /\ List.filter (fun r => sortKey SortStars r =? 0)
       (sortRepos Ex.collate (Ex.rollups 3 ++ [Ex.y]) Ex.aliceAll)
     = Ex.rollups 3.
Proof.
  assert (Hexact : Forall exactRange (Ex.rollups 3 ++ [Ex.y]))
    by (repeat constructor; discriminate).
  split; [discriminate|]. split; [exact Hexact|].
  exact (eq_trans
           (sortRepos_keeps_order_of_ties Ex.collate (Ex.rollups 3 ++ [Ex.y])
              Ex.aliceAll 0 ltac:(discriminate) Hexact)
           eq_refl).
Defined.

(** X21: the list that a read returns holds the rollups that pass the
    filter, cut to the first [limit] of them when [limit] is positive; a
    limit of zero or below does not cut. *)
Theorem project_length (localeCompare : string -> string -> Z)
  (repos : list Repository) (config : Config) :
  length (project localeCompare repos config)
  = if limit config >? 0
    then Nat.min (Z.to_nat (limit config))
           (length (List.filter (keeps config) repos))
    else length (List.filter (keeps config) repos).
Proof.
  unfold project, sortRepos, filterRepos.
  rewrite secondPass_self by auto.
  destruct (Z.gtb_spec (limit config) 0) as [Hpos | Hnon].
  - unfold Js.slice_to, Js.clamp_index.
    destruct (Z.ltb_spec (limit config) 0); [lia|].
    rewrite length_firstn, stableSort_length. lia.
  - apply stableSort_length.
Qed.

(** ** The memory cache across calls *)

Lemma enrich_entry (remote : Remote) (times : Times) (username : string)
  (config : Config) (cache : Cache.t) (repos : list Repository) :
  fetched_entry (snd (enrich remote times username config cache repos))
  = Mem.mk (Some (fetched_repos
                    (snd (enrich remote times username config cache repos))))
      (at_set times).
Proof. now rewrite enrich_result. Qed.

Lemma fetchAndCache_entry (fuel : nat) (remote : Remote) (currentYear : Z)
  (times : Times) (username : string) (config : Config) (cache : Cache.t)
  (fetched : Fetched) :
  snd (fetchAndCache fuel remote currentYear times username config cache)
    = Ok fetched ->
  fetched_entry fetched = Mem.mk (Some (fetched_repos fetched)) (at_set times).
Proof.
  unfold fetchAndCache.
  destruct (negb (isCacheStale (at_check times) cache)
            && String.eqb (Cache.username cache) username
            && (Z.of_nat (length (Cache.repos cache)) >? 0)).
  - pose proof (enrich_entry remote times username config cache
                  (ReposMap.values (Cache.repos cache))) as H.
    destruct (enrich _ _ _ _ _ _) as [log fetched']. cbn [snd] in *.
    now intros [= <-].
  - destruct (fetchContributedRepos fuel remote username currentYear)
      as [searches [repos | msg |]]; try discriminate.
    pose proof (enrich_entry remote times username config
                  (Cache.mk username (Cache.repos cache) (Cache.fetchedAt cache))
                  repos) as H.
    destruct (enrich _ _ _ _ _ _) as [log fetched']. cbn [snd] in *.
    now intros [= <-].
Qed.

Lemma getRepos_miss (localeCompare : string -> string -> Z) (env : Env)
  (config : Config) (st : Store) :
  (forall data fetchedAt,
      memoryCache st !! identityOf config (env_login env)
        = Some (Mem.mk (Some data) fetchedAt) ->
      STALE_WHILE_REVALIDATE_MS <= env_now env - fetchedAt) ->
  getRepos localeCompare env config st
  = match snd (fetchAndCache (env_fuel env) (env_remote env) (env_year env)
                 (env_times env) (identityOf config (env_login env)) config
                 (loadCache (file st))) with
    | Ok fetched =>
        (Ok (Reply.mk (project localeCompare (fetched_repos fetched) config)
               NO_CACHE (identityOf config (env_login env))),
         commit (identityOf config (env_login env)) (Ok fetched) st)
    | Failed message => (Failed message, st)
    | OutOfFuel => (OutOfFuel, st)
    end.
Proof.
  intros Hold. unfold getRepos.
  destruct (fetchAndCache _ _ _ _ _ _ _) as [log out]. cbn [snd].
  destruct (memoryCache st !! identityOf config (env_login env))
    as [[[data|] fetchedAt]|] eqn:Hc; try (now destruct out).
  specialize (Hold data fetchedAt eq_refl). cbn [Mem.fetchedAt].
  assert (H1 : (env_now env - fetchedAt <? CACHE_AGE_MS) = false)
    by (apply Z.ltb_ge; unfold CACHE_AGE_MS, STALE_WHILE_REVALIDATE_MS in *; lia).
  assert (H2 : (env_now env - fetchedAt <? STALE_WHILE_REVALIDATE_MS) = false)
    by (apply Z.ltb_ge; lia).
  rewrite H1, H2. cbn [orb]. now destruct out.
Qed.

(** X22: a read that finds no memory entry and succeeds stores one.  A
    later read for the same identity and query is answered from the cache
    with the same repositories, provided it is made less than 24 hours after
    the entry was written and the identity's entry is still the one that
    read stored: no refetch and no settled revalidation has replaced it in
    between. *)
Theorem read_after_miss_is_served_from_cache
  (localeCompare : string -> string -> Z) (env env' : Env) (config : Config)
  (st st' later : Store) (reply : Reply.t) :
  memoryCache st !! identityOf config (env_login env) = None ->
  getRepos localeCompare env config st = (Ok reply, st') ->
  env_login env' = env_login env ->
  env_now env' - at_set (env_times env) < STALE_WHILE_REVALIDATE_MS ->
  memoryCache later !! identityOf config (env_login env)
    = memoryCache st' !! identityOf config (env_login env) ->
  exists reply',
    fst (getRepos localeCompare env' config later) = Ok reply'
    /\ fromCache (Reply.cache reply') = true
    /\ Reply.repos reply' = Reply.repos reply
    /\ Reply.user reply' = Reply.user reply.
Proof.
  intros Hmiss Hread Hlogin Hage Hsame.
  rewrite getRepos_miss in Hread by (intros ? ?; rewrite Hmiss; discriminate).
  destruct (snd (fetchAndCache _ _ _ _ _ _ _)) as [fetched | msg |] eqn:Hrun;
    try discriminate.
  injection Hread as <- <-.
  pose proof (fetchAndCache_entry _ _ _ _ _ _ _ _ Hrun) as Hentry.
  assert (Hcached : memoryCache later !! identityOf config (env_login env')
                    = Some (Mem.mk (Some (fetched_repos fetched))
                              (at_set (env_times env)))).
  { rewrite Hlogin, Hsame. cbn [commit memoryCache]. rewrite lookup_insert_eq.
    now rewrite Hentry. }
  rewrite (getRepos_hit _ _ _ _ _ _ Hcached Hage). cbn [fst].
  eexists. split; [reflexivity|]. cbn. rewrite Hlogin. auto.
Qed.

Lemma read_after_miss_is_served_from_cache_witness :
  exists reply st' reply',
    memoryCache (started None) !! "alice" = None
    /\ getRepos Ex.collate (Ex.envAt 0) Ex.aliceAll (started None) = (Ok reply, st')
    /\ map task_user
         (inflight (snd (getRepos Ex.collate (Ex.envAt 27000) Ex.aliceAll st')))
       = ["alice"]
    /\ fst (getRepos Ex.collate (Ex.envAt 50000000) Ex.aliceAll
              (snd (getRepos Ex.collate (Ex.envAt 27000) Ex.aliceAll st')))
       = Ok reply'
    /\ fromCache (Reply.cache reply') = true
    /\ map fullName (Reply.repos reply') = ["bob/y"; "alice/x"]
    /\ Reply.repos reply' = Reply.repos reply.
Proof.
  destruct (getRepos Ex.collate (Ex.envAt 0) Ex.aliceAll (started None))
    as [out st'] eqn:Hread.
  pose proof Hread as Hvalue. vm_compute in Hvalue. injection Hvalue as <- <-.
  match type of Hread with
  | _ = (Ok ?reply, ?st') =>
      assert (Hsame : memoryCache
                        (snd (getRepos Ex.collate (Ex.envAt 27000) Ex.aliceAll st'))
                        !! identityOf Ex.aliceAll (env_login (Ex.envAt 0))
                      = memoryCache st'
                        !! identityOf Ex.aliceAll (env_login (Ex.envAt 0)))
        by (vm_compute; reflexivity);
      destruct (read_after_miss_is_served_from_cache Ex.collate (Ex.envAt 0)
                  (Ex.envAt 50000000) Ex.aliceAll (started None) st'
                  (snd (getRepos Ex.collate (Ex.envAt 27000) Ex.aliceAll st')) reply
                  eq_refl Hread eq_refl eq_refl Hsame)
        as (reply' & Hreply' & Hfrom & Hrepos & _)
  end.
  eexists _, _, reply'. split; [reflexivity|]. split; [reflexivity|].
  split; [reflexivity|].
  split; [exact Hreply'|]. split; [exact Hfrom|].
  split; [now rewrite Hrepos | exact Hrepos].
Defined.

(** X23: a memory entry that is 24 hours old or older is never served: the
    read refetches, a successful reply is marked as not from the cache, and
    a failed refetch fails the read and leaves the store as it was. *)
Theorem expired_entry_is_not_served (localeCompare : string -> string -> Z)
  (env : Env) (config : Config) (st : Store) (entry : Mem.entry) :
  memoryCache st !! identityOf config (env_login env) = Some entry ->
  STALE_WHILE_REVALIDATE_MS <= env_now env - Mem.fetchedAt entry ->
  match getRepos localeCompare env config st with
  | (Ok reply, st') =>
      Reply.cache reply = NO_CACHE
      /\ exists fetched,
           snd (fetchAndCache (env_fuel env) (env_remote env) (env_year env)
                  (env_times env) (identityOf config (env_login env)) config
                  (loadCache (file st))) = Ok fetched
           /\ Reply.repos reply = project localeCompare (fetched_repos fetched) config
  | (_, st') => st' = st
  end.
Proof.
  intros Hentry Hold.
  rewrite getRepos_miss.
  - destruct (snd (fetchAndCache _ _ _ _ _ _ _)) as [fetched | msg |];
      [| reflexivity | reflexivity].
    split; [reflexivity|]. now exists fetched.
  - intros data fetchedAt Hc. rewrite Hentry in Hc. injection Hc as ->. exact Hold.
Qed.

Lemma expired_entry_is_not_served_witness :
  memoryCache Ex.idle !! "alice" = Some (Mem.mk (Some [Ex.x]) 0)
  /\ STALE_WHILE_REVALIDATE_MS <= 86400000 - 0
  /\ getRepos Ex.collate (Ex.flakyAt 86400000) Ex.aliceAll Ex.idle
     = (Failed "GitHub API error: 502 Bad Gateway", Ex.idle).
Proof.
  split; [reflexivity|]. split; [discriminate|].
  pose proof (expired_entry_is_not_served Ex.collate (Ex.flakyAt 86400000)
                Ex.aliceAll Ex.idle (Mem.mk (Some [Ex.x]) 0) eq_refl
                ltac:(discriminate)) as H.
  destruct (getRepos Ex.collate (Ex.flakyAt 86400000) Ex.aliceAll Ex.idle)
    as [out st'] eqn:Hread.
  assert (Hout : out = Failed "GitHub API error: 502 Bad Gateway")
    by (vm_compute in Hread; now injection Hread as <- _).
  subst out. now rewrite H.
Defined.

(** ** The store along a history *)

Lemma getRepos_store_cases (localeCompare : string -> string -> Z) (env : Env)
  (config : Config) (st : Store) :
  let username := identityOf config (env_login env) in
  let st' := snd (getRepos localeCompare env config st) in
  st' = maybeRevalidate true username config st
  \/ st' = st
  \/ exists fetched,
       snd (fetchAndCache (env_fuel env) (env_remote env) (env_year env)
              (env_times env) username config (loadCache (file st))) = Ok fetched
       /\ st' = commit username (Ok fetched) st.
Proof.
  cbv zeta. unfold getRepos.
  destruct (fetchAndCache _ _ _ _ _ _ _) as [log out]. cbn [snd].
  assert (Hmiss : forall st0,
             st0 = snd (match out with
                        | Ok fetched =>
                            (Ok (Reply.mk (project localeCompare (fetched_repos fetched) config)
                                   NO_CACHE (identityOf config (env_login env))),
                             commit (identityOf config (env_login env)) out st)
                        | Failed message => (Failed message, st)
                        | OutOfFuel => (OutOfFuel, st)
                        end) ->
             st0 = st \/ exists fetched, out = Ok fetched
                          /\ st0 = commit (identityOf config (env_login env))
                                     (Ok fetched) st).
  { intros st0 ->. destruct out as [fetched | msg |]; cbn [snd]; eauto. }
  destruct (memoryCache st !! identityOf config (env_login env))
    as [[[data|] fetchedAt]|]; try (right; now apply Hmiss).
  cbn [Mem.fetchedAt].
  destruct (Z.ltb_spec (env_now env - fetchedAt) STALE_WHILE_REVALIDATE_MS)
    as [Hlt | Hge].
  - rewrite orb_true_r. cbn [snd]. now left.
  - destruct (Z.ltb_spec (env_now env - fetchedAt) CACHE_AGE_MS) as [Hf | Hnf].
    + unfold CACHE_AGE_MS, STALE_WHILE_REVALIDATE_MS in *. lia.
    + cbn [orb]. right. now apply Hmiss.
Qed.

Lemma settle_cases (env : Env) (i : nat) (st st' : Store) :
  settle env i st = Some st' ->
  exists task,
    inflight st !! i = Some task
    /\ let base := mkStore (memoryCache st) (revalidatePromise st)
                     (revalidateUser st) (file st) (delete i (inflight st)) in
       st' = base
       \/ exists fetched,
            snd (fetchAndCache (env_fuel env) (env_remote env) (env_year env)
                   (env_times env) (task_user task) (task_config task)
                   (task_loaded task)) = Ok fetched
            /\ st' = commit (task_user task) (Ok fetched) base.
Proof.
  unfold settle. destruct (inflight st !! i) as [task|]; [| discriminate].
  destruct (fetchAndCache _ _ _ _ _ _ _) as [log [fetched | msg |]] eqn:E;
    [| | discriminate]; intros [= <-]; exists task; (split; [reflexivity|]);
    cbv zeta; rewrite E; cbn [snd].
  - right. exists fetched. split; reflexivity.
  - left. reflexivity.
Qed.

Lemma maybeRevalidate_memory (username : string) (config : Config) (st : Store) :
  memoryCache (maybeRevalidate true username config st) = memoryCache st
  /\ file (maybeRevalidate true username config st) = file st.
Proof.
  unfold maybeRevalidate.
  destruct (true && _); auto.
Qed.

(** X24: a call of [getRepos] leaves the memory entry of every identity
    other than the one it reads for exactly as it was. *)
Theorem read_leaves_other_identities_alone (localeCompare : string -> string -> Z)
  (env : Env) (config : Config) (st : Store) (other : string) :
  other <> identityOf config (env_login env) ->
  memoryCache (snd (getRepos localeCompare env config st)) !! other
  = memoryCache st !! other.
Proof.
  intros Hne.
  destruct (getRepos_store_cases localeCompare env config st)
    as [-> | [-> | (fetched & _ & ->)]].
  - now rewrite (proj1 (maybeRevalidate_memory _ _ _)).
  - reflexivity.
  - cbn [commit memoryCache]. now apply lookup_insert_ne.
Qed.

Lemma read_leaves_other_identities_alone_witness :
  "alice" <> identityOf Ex.bobAll "alice"
  /\ Mem.fetchedAt <$>
       memoryCache (snd (getRepos Ex.collate (Ex.envAt 90000000) Ex.bobAll Ex.idle))
         !! "bob" = Some 3000
  /\ memoryCache (snd (getRepos Ex.collate (Ex.envAt 90000000) Ex.bobAll Ex.idle))
       !! "alice" = memoryCache Ex.idle !! "alice".
Proof.
  split; [discriminate|]. split; [vm_compute; reflexivity|].
  exact (read_leaves_other_identities_alone Ex.collate (Ex.envAt 90000000)
           Ex.bobAll Ex.idle "alice" ltac:(discriminate)).
Defined.

Lemma getRepos_reply_ext (localeCompare : string -> string -> Z) (env : Env)
  (config : Config) (st st' : Store) :
  memoryCache st' = memoryCache st -> file st' = file st ->
  fst (getRepos localeCompare env config st')
  = fst (getRepos localeCompare env config st).
Proof.
  intros Hmem Hfile. unfold getRepos. rewrite Hmem, Hfile.
  destruct (fetchAndCache _ _ _ _ _ _ _) as [log out].
  destruct (memoryCache st !! identityOf config (env_login env))
    as [[[data|] fetchedAt]|]; try (now destruct out).
  destruct (_ || _); [reflexivity | now destruct out].
Qed.

(** X25: when a background revalidation fails, it just leaves the list of
    calls in flight: both cache tiers stay as they were, so every later read
    is answered exactly as it would have been without it. *)
Theorem failed_revalidation_is_invisible (localeCompare : string -> string -> Z)
  (env : Env) (i : nat) (st : Store) (task : Task) (message : string) :
  inflight st !! i = Some task ->
  snd (fetchAndCache (env_fuel env) (env_remote env) (env_year env)
         (env_times env) (task_user task) (task_config task) (task_loaded task))
    = Failed message ->
  exists st',
    settle env i st = Some st'
    /\ inflight st' = delete i (inflight st)
    /\ memoryCache st' = memoryCache st /\ file st' = file st
    /\ forall env' config',
         fst (getRepos localeCompare env' config' st')
         = fst (getRepos localeCompare env' config' st).
Proof.
  intros Htask Hfail. unfold settle. rewrite Htask.
  destruct (fetchAndCache _ _ _ _ _ _ _) as [log out]. cbn [snd] in Hfail.
  subst out. eexists. split; [reflexivity|]. cbn [commit].
  repeat split. intros env' config'. now apply getRepos_reply_ext.
Qed.

Lemma failed_revalidation_is_invisible_witness :
  let s1 := snd (getRepos Ex.collate (Ex.envAt 600000) Ex.aliceAll Ex.idle) in
  exists task st',
    inflight s1 !! 0%nat = Some task
    /\ settle (Ex.flakyAt 700000) 0 s1 = Some st'
    /\ inflight st' = []
    /\ memoryCache st' = memoryCache Ex.idle
    /\ fst (getRepos Ex.collate (Ex.envAt 800000) Ex.aliceAll st')
       = fst (getRepos Ex.collate (Ex.envAt 800000) Ex.aliceAll s1).
Proof.
  cbv zeta.
  set (s1 := snd (getRepos Ex.collate (Ex.envAt 600000) Ex.aliceAll Ex.idle)).
  assert (Htask : inflight s1 !! 0%nat
                  = Some (mkTask "alice" Ex.aliceAll (loadCache None)))
    by (vm_compute; reflexivity).
  destruct (failed_revalidation_is_invisible Ex.collate (Ex.flakyAt 700000) 0 s1
              _ "GitHub API error: 502 Bad Gateway" Htask
              ltac:(vm_compute; reflexivity))
    as (st' & Hsettle & Hin & Hmem & _ & Hreads).
  exists (mkTask "alice" Ex.aliceAll (loadCache None)), st'.
  split; [exact Htask|]. split; [exact Hsettle|].
  split; [rewrite Hin; vm_compute; reflexivity|].
  split; [rewrite Hmem; vm_compute; reflexivity|].
  apply Hreads.
Defined.

Lemma commit_populated (username : string) (fetched : Fetched) (st : Store)
  (times : Times) :
  fetched_entry fetched = Mem.mk (Some (fetched_repos fetched)) (at_set times) ->
  populated st -> populated (commit username (Ok fetched) st).
Proof.
  intros Hentry Hst u entry. cbn [commit memoryCache].
  rewrite lookup_insert. case_decide as Hu.
  - intros [= <-]. now rewrite Hentry.
  - apply Hst.
Qed.

Lemma step_populated (localeCompare : string -> string -> Z) (st : Store)
  (e : Event) :
  populated st -> populated (step localeCompare st e).
Proof.
  intros Hst. destruct e as [env config | env i]; cbn [step].
  - destruct (getRepos_store_cases localeCompare env config st)
      as [-> | [-> | (fetched & Hrun & ->)]]; [| exact Hst |].
    + intros u entry. rewrite (proj1 (maybeRevalidate_memory _ _ _)). apply Hst.
    + eapply commit_populated; [| exact Hst].
      exact (fetchAndCache_entry _ _ _ _ _ _ _ _ Hrun).
  - destruct (settle env i st) as [st'|] eqn:E; [| exact Hst]. cbn [default].
    apply settle_cases in E as (task & _ & [-> | (fetched & Hrun & ->)]).
    + exact Hst.
    + eapply commit_populated; [| exact Hst].
      exact (fetchAndCache_entry _ _ _ _ _ _ _ _ Hrun).
Qed.

(** X26: in every store that a process can reach from its start, by reads
    and by settling background calls, each memory entry carries a list of
    repositories: the [data] of an entry is never null. *)
Theorem memory_entries_always_carry_data (localeCompare : string -> string -> Z)
  (events : list Event) (cacheFile : option Cache.t) :
  populated (run localeCompare events (started cacheFile)).
Proof.
  unfold run.
  assert (H : populated (started cacheFile))
    by (intros u entry; cbn; rewrite lookup_empty; discriminate).
  revert H. generalize (started cacheFile) as st.
  induction events as [| e events IH]; intros st Hst; cbn [fold_left]; [exact Hst|].
  apply IH. now apply step_populated.
Qed.

Lemma Forall_sublist {A} (P : A -> Prop) (k l : list A) :
  sublist k l -> Forall P l -> Forall P k.
Proof.
  induction 1 as [| x k l _ IH | x k l _ IH]; intros Hl.
  - constructor.
  - inversion Hl; subst. constructor; auto.
  - inversion Hl; subst. auto.
Qed.

Lemma markerNames_same (username : string) (st st' : Store) :
  revalidatePromise st' = revalidatePromise st ->
  revalidateUser st' = revalidateUser st ->
  markerNames username st' = markerNames username st.
Proof. unfold markerNames. now intros -> ->. Qed.

Lemma step_shape (localeCompare : string -> string -> Z) (st : Store)
  (e : Event) (username : string) :
  readsFor username e ->
  (revalidatePromise (step localeCompare st e) = revalidatePromise st
   /\ revalidateUser (step localeCompare st e) = revalidateUser st
   /\ sublist (inflight (step localeCompare st e)) (inflight st))
  \/ exists config,
       step localeCompare st e = maybeRevalidate true username config st.
Proof.
  destruct e as [env config | env i]; cbn [step readsFor].
  - intros <-.
    destruct (getRepos_store_cases localeCompare env config st)
      as [-> | [-> | (fetched & _ & ->)]].
    + right. now exists config.
    + left. repeat split; reflexivity.
    + left. cbn [commit revalidatePromise revalidateUser inflight].
      repeat split; reflexivity.
  - intros _. left.
    destruct (settle env i st) as [st'|] eqn:E; cbn [default];
      [| repeat split; reflexivity].
    apply settle_cases in E as (task & _ & [-> | (fetched & _ & ->)]);
      cbn [commit revalidatePromise revalidateUser inflight];
      repeat split; try reflexivity; apply sublist_delete.
Qed.

Lemma step_singleFlight (localeCompare : string -> string -> Z) (st : Store)
  (e : Event) (username : string) :
  readsFor username e ->
  singleFlight username st -> singleFlight username (step localeCompare st e).
Proof.
  intros He (Hlen & Hall & Hmark).
  destruct (step_shape localeCompare st e username He)
    as [(Hp & Hu & Hsub) | (config & ->)].
  - split; [| split].
    + apply sublist_length in Hsub. lia.
    + eapply Forall_sublist; eauto.
    + intros Hne. rewrite (markerNames_same _ _ _ Hp Hu). apply Hmark.
      intros Hnil. rewrite Hnil in Hsub. apply sublist_nil_r in Hsub. contradiction.
  - destruct (markerNames username st) eqn:Hm.
    + rewrite (maybeRevalidate_marked _ _ _ Hm). now split.
    + rewrite (maybeRevalidate_unmarked _ _ _ Hm).
      assert (Hnil : inflight st = []).
      { destruct (inflight st) as [| t l]; [reflexivity|].
        assert (Hne : t :: l <> []) by discriminate.
        specialize (Hmark Hne). congruence. }
      cbn [inflight]. rewrite Hnil. split; [cbn; lia|]. split.
      * repeat constructor.
      * intros _. unfold markerNames. cbn. now apply bool_decide_eq_true_2.
Qed.

Lemma singleFlight_counts (username : string) (st : Store) :
  singleFlight username st -> (inflightFor username st <= 1)%nat.
Proof.
  intros (Hlen & _ & _). unfold inflightFor.
  pose proof (filter_length_le (fun t => String.eqb (task_user t) username)
                (inflight st)). lia.
Qed.

(** X27: as long as every read of the process is for one and the same
    identity, which is so for the server and the CLI since neither sets
    [config.user], at most one background revalidation is in flight at any
    time, whatever the order of reads and settlements. *)
Theorem one_identity_has_one_revalidation_in_flight
  (localeCompare : string -> string -> Z) (username : string)
  (events : list Event) (cacheFile : option Cache.t) :
  Forall (readsFor username) events ->
  (length (inflight (run localeCompare events (started cacheFile))) <= 1)%nat
  /\ (inflightFor username (run localeCompare events (started cacheFile)) <= 1)%nat.
Proof.
  intros Hevents.
  assert (Hinv : singleFlight username (run localeCompare events (started cacheFile))).
  { unfold run.
    assert (H : singleFlight username (started cacheFile)).
    { split; [cbn; lia|]. split; [constructor|]. cbn. congruence. }
    revert H. generalize (started cacheFile) as st.
    induction Hevents as [| e events He _ IH]; intros st Hst; cbn [fold_left];
      [exact Hst|].
    apply IH. now apply step_singleFlight. }
  split; [apply Hinv | now apply singleFlight_counts].
Qed.

(** X28: as long as every read of the process is for one and the same
    identity, the marker is set once and for all: once it names that
    identity, no later read starts a revalidation, however old the entry and
    whether or not the earlier call has settled, so the calls in flight only
    go down.  (A read for another identity would re-point the marker.) *)
Theorem marked_identity_is_never_revalidated_again
  (localeCompare : string -> string -> Z) (username : string)
  (events : list Event) (st : Store) :
  markerNames username st = true ->
  Forall (readsFor username) events ->
  markerNames username (run localeCompare events st) = true
  /\ sublist (inflight (run localeCompare events st)) (inflight st).
Proof.
  intros Hm Hevents. unfold run. revert st Hm.
  induction Hevents as [| e events He _ IH]; intros st Hm; cbn [fold_left];
    [split; [exact Hm | reflexivity]|].
  destruct (step_shape localeCompare st e username He)
    as [(Hp & Hu & Hsub) | (config & Hstep)].
  - destruct (IH (step localeCompare st e)) as [Hm' Hsub'].
    + now rewrite (markerNames_same _ _ _ Hp Hu).
    + split; [exact Hm' | now transitivity (inflight (step localeCompare st e))].
  - rewrite Hstep, (maybeRevalidate_marked _ _ _ Hm). now apply IH.
Qed.

Lemma one_identity_has_one_revalidation_in_flight_witness :
  Forall (readsFor "alice") Sample.day
  /\ length (inflight (run Ex.collate (firstn 3 Sample.day) (started None))) = 1%nat
  /\ (inflightFor "alice" (run Ex.collate Sample.day (started None)) <= 1)%nat.
Proof.
  assert (Hday : Forall (readsFor "alice") Sample.day)
    by (repeat constructor).
  split; [exact Hday|]. split; [vm_compute; reflexivity|].
  exact (proj2 (one_identity_has_one_revalidation_in_flight Ex.collate "alice"
                  Sample.day None Hday)).
Defined.

Lemma marked_identity_is_never_revalidated_again_witness :
  let s1 := snd (getRepos Ex.collate (Ex.envAt 600000) Ex.aliceAll Ex.idle) in
  let later := [Settle (Ex.envAt 700000) 0; Read (Ex.envAt 80000000) Ex.aliceAll] in
  markerNames "alice" s1 = true
  /\ Forall (readsFor "alice") later
  /\ Mem.fetchedAt <$> memoryCache (run Ex.collate later s1) !! "alice" = Some 3000
  /\ inflight (run Ex.collate later s1) = []
  /\ markerNames "alice" (run Ex.collate later s1) = true.
Proof.
  cbv zeta.
  assert (Hlater : Forall (readsFor "alice")
                     [Settle (Ex.envAt 700000) 0;
                      Read (Ex.envAt 80000000) Ex.aliceAll])
    by (repeat constructor).
  split; [reflexivity|]. split; [exact Hlater|].
  split; [vm_compute; reflexivity|]. split; [vm_compute; reflexivity|].
  exact (proj1 (marked_identity_is_never_revalidated_again Ex.collate "alice" _
                  (snd (getRepos Ex.collate (Ex.envAt 600000) Ex.aliceAll Ex.idle))
                  eq_refl Hlater)).
Defined.

(** ** The server's routes *)

Lemma nameList_nonempty (trim : string -> string) (value : string) :
  Forall (fun f => f <> "") (nameList trim value).
Proof.
  unfold nameList. apply List.Forall_forall. intros f Hf.
  apply filter_In in Hf as [_ Hf]. intros ->. discriminate.
Qed.

Lemma parseConfigFromUrl_fromServer (trim : string -> string)
  (parseInt : string -> option Z) (query : list (string * string)) :
  fromServer (parseConfigFromUrl trim parseInt query).
Proof.
  pose proof (nameList_nonempty trim) as Hnames.
  assert (Hscope : forall p c, fromServer c -> fromServer (withScope p c)).
  { intros [v|] c (? & ? & ? & ?); [| now repeat split]. unfold withScope.
    destruct (String.eqb v "own"); [now repeat split|].
    destruct (String.eqb v "external"); [now repeat split|].
    destruct (String.eqb v "all"); now repeat split. }
  assert (Hsort : forall p c, fromServer c -> fromServer (withSort p c)).
  { intros [v|] c (? & ? & ? & ?); [| now repeat split]. unfold withSort.
    destruct (sortOf v); now repeat split. }
  assert (Hlimit : forall p c, fromServer c -> fromServer (withLimit parseInt p c)).
  { intros [v|] c (? & ? & ? & ?); [| now repeat split]. unfold withLimit.
    destruct (Js.truthy v); now repeat split. }
  assert (Hincl : forall p c, fromServer c -> fromServer (withInclude trim p c)).
  { intros [v|] c (? & ? & ? & ?); [| now repeat split]. unfold withInclude.
    destruct (Js.truthy v); repeat split; try assumption; apply Hnames. }
  assert (Hexcl : forall p c, fromServer c -> fromServer (withExclude trim p c)).
  { intros [v|] c (? & ? & ? & ?); [| now repeat split]. unfold withExclude.
    destruct (Js.truthy v); repeat split; try assumption; apply Hnames. }
  assert (Hpriv : forall p c, fromServer c -> fromServer (withPrivate p c)).
  { intros [v|] c (? & ? & ? & ?); [| now repeat split]. unfold withPrivate.
    destruct (String.eqb v "true"); now repeat split. }
  unfold parseConfigFromUrl. cbv zeta.
  apply Hpriv, Hexcl, Hincl, Hlimit, Hsort, Hscope.
  repeat split; constructor.
Qed.

(** X29: whatever the query string, the configuration that the server
    builds from it names no user and keeps the default budget, so the read
    is for the authenticated user with a hot set of 20; and the include and
    exclude lists it builds hold no empty name. *)
Theorem server_config_reads_for_the_login (trim : string -> string)
  (parseInt : string -> option Z) (query : list (string * string))
  (login : string) :
  identityOf (parseConfigFromUrl trim parseInt query) login = login
  /\ budgetOf (parseConfigFromUrl trim parseInt query) = 20
  /\ Forall (fun f => f <> "") (include (parseConfigFromUrl trim parseInt query))
  /\ Forall (fun f => f <> "") (exclude (parseConfigFromUrl trim parseInt query)).
Proof.
  destruct (parseConfigFromUrl_fromServer trim parseInt query)
    as (Huser & Hbudget & Hincl & Hexcl).
  unfold identityOf, budgetOf. rewrite Huser, Hbudget. auto.
Qed.

(** X30: the [X-Cache] header of a successful response is [HIT] exactly
    when the memory entry is younger than 60 seconds, [STALE] when it is
    between 60 seconds and 24 hours old, and [MISS] when there is no entry
    or it is older; the [Cache-Control] header is the same in all cases. *)
Theorem x_cache_header_follows_entry_age (localeCompare : string -> string -> Z)
  (env : Env) (config : Config) (st : Store) (reply : Reply.t) :
  fst (getRepos localeCompare env config st) = Ok reply ->
  xCache (Reply.cache reply)
  = match memoryCache st !! identityOf config (env_login env) with
    | Some (Mem.mk (Some _) fetchedAt) =>
        if env_now env - fetchedAt <? CACHE_AGE_MS then "HIT"
        else if env_now env - fetchedAt <? STALE_WHILE_REVALIDATE_MS then "STALE"
        else "MISS"
    | _ => "MISS"
    end
  /\ getCacheControl (isStale (Reply.cache reply))
     = "public, max-age=60, stale-while-revalidate=86400".
Proof.
  intros Hread. split; [| now destruct (isStale (Reply.cache reply))].
  assert (Hmiss : (forall data fetchedAt,
                      memoryCache st !! identityOf config (env_login env)
                        = Some (Mem.mk (Some data) fetchedAt) ->
                      STALE_WHILE_REVALIDATE_MS <= env_now env - fetchedAt) ->
                  xCache (Reply.cache reply) = "MISS").
  { intros Hold. rewrite (getRepos_miss _ _ _ _ Hold) in Hread.
    destruct (snd (fetchAndCache _ _ _ _ _ _ _)); try discriminate.
    cbn [fst] in Hread. now injection Hread as <-. }
  destruct (memoryCache st !! identityOf config (env_login env))
    as [[[data|] fetchedAt]|] eqn:Hc;
    try (apply Hmiss; intros; discriminate).
  destruct (Z.ltb_spec (env_now env - fetchedAt) STALE_WHILE_REVALIDATE_MS)
    as [Hlt | Hge].
  - rewrite (getRepos_hit _ _ _ _ _ _ Hc Hlt) in Hread. cbn [fst] in Hread.
    injection Hread as <-. cbn.
    now destruct (env_now env - fetchedAt <? CACHE_AGE_MS).
  - destruct (Z.ltb_spec (env_now env - fetchedAt) CACHE_AGE_MS) as [Hf | _].
    + unfold CACHE_AGE_MS, STALE_WHILE_REVALIDATE_MS in *. lia.
    + apply Hmiss. intros d f [= -> ->]. exact Hge.
Qed.

Lemma x_cache_header_follows_entry_age_witness :
  exists reply,
    fst (getRepos Ex.collate (Ex.envAt 600000) Ex.aliceAll Ex.idle) = Ok reply
    /\ xCache (Reply.cache reply) = "STALE".
Proof.
  eexists. split; [vm_compute; reflexivity|].
  refine (eq_trans
            (proj1 (x_cache_header_follows_entry_age Ex.collate (Ex.envAt 600000)
                      Ex.aliceAll Ex.idle _ _)) _);
    vm_compute; reflexivity.
Defined.

(** ** The total that a route reports *)

Lemma totalPRs_same_counts (l l' : list Repository) :
  map prCount l = map prCount l' -> totalPRs l = totalPRs l'.
Proof.
  revert l'. induction l as [| r l IH]; intros [| r' l']; simpl; try discriminate;
    [reflexivity|].
  intros [= Hr Hl]. rewrite !totalPRs_cons, Hr, (IH l' Hl). reflexivity.
Qed.

Lemma totalPRs_Permutation (l l' : list Repository) :
  Permutation l l' -> totalPRs l = totalPRs l'.
Proof.
  induction 1 as [| r l l' _ IH | r r' l | l l' l'' _ IH1 _ IH2].
  - reflexivity.
  - now rewrite !totalPRs_cons, IH.
  - rewrite !totalPRs_cons. lia.
  - congruence.
Qed.

Lemma totalPRs_filter_le (p : Repository -> bool) (l : list Repository) :
  Forall (fun r => 0 <= prCount r) l ->
  totalPRs (List.filter p l) <= totalPRs l.
Proof.
  induction 1 as [| r l Hr _ IH]; simpl; [lia|].
  destruct (p r); rewrite ?totalPRs_cons; lia.
Qed.

Lemma totalPRs_firstn_le (n : nat) (l : list Repository) :
  Forall (fun r => 0 <= prCount r) l ->
  0 <= totalPRs (firstn n l) <= totalPRs l.
Proof.
  intros Hl. revert n. induction Hl as [| r l Hr _ IH]; intros [| n]; simpl;
    rewrite ?totalPRs_cons; try (unfold totalPRs; simpl; lia).
  - specialize (IH 0%nat). simpl in IH. unfold totalPRs in *. simpl in *. lia.
  - specialize (IH n). lia.
Qed.

Lemma filter_length_eq {A} (p : A -> bool) (l : list A) :
  length (List.filter p l) = length l -> List.filter p l = l.
Proof.
  induction l as [| x l IH]; simpl; [reflexivity|].
  destruct (p x); simpl.
  - intros [= H]. now rewrite IH.
  - intros H. pose proof (filter_length_le p l). lia.
Qed.

Lemma firstn_length_eq {A} (n : nat) (l : list A) :
  length (firstn n l) = length l -> firstn n l = l.
Proof.
  rewrite length_firstn. intros H. apply firstn_all2. lia.
Qed.

Lemma nonneg_same_counts (l l' : list Repository) :
  map prCount l = map prCount l' ->
  Forall (fun r => 0 <= prCount r) l -> Forall (fun r => 0 <= prCount r) l'.
Proof.
  revert l'. induction l as [| r l IH]; intros [| r' l']; simpl; try discriminate;
    [constructor|].
  intros [= Hr Hl] H. inversion H; subst.
  constructor; [lia | now apply IH].
Qed.

Lemma project_total (localeCompare : string -> string -> Z)
  (l : list Repository) (config : Config) :
  Forall (fun r => 0 <= prCount r) l ->
  totalPRs (project localeCompare l config) <= totalPRs l
  /\ (totalPRs (project localeCompare l config) = totalPRs l
      \/ (length (project localeCompare l config) < length l)%nat).
Proof.
  intros Hl.
  set (kept := List.filter (keeps config) l).
  set (sorted := stableSort (comparator localeCompare config) kept).
  assert (Hkept : totalPRs kept <= totalPRs l) by now apply totalPRs_filter_le.
  assert (Hsorted : totalPRs sorted = totalPRs kept)
    by (symmetry; apply totalPRs_Permutation, stableSort_Permutation).
  assert (Hnonneg : Forall (fun r => 0 <= prCount r) sorted).
  { apply List.Forall_forall. intros r Hr.
    rewrite List.Forall_forall in Hl. apply Hl.
    assert (In r kept)
      by (eapply Permutation_in; [symmetry; apply stableSort_Permutation | exact Hr]).
    unfold kept in *. now apply filter_In in H. }
  assert (Hlen : length sorted = length kept) by apply stableSort_length.
  pose proof (filter_length_le (keeps config) l) as Hle. fold kept in Hle.
  assert (Hwhole : totalPRs sorted = totalPRs l
                   \/ (length sorted < length l)%nat).
  { destruct (Nat.eq_dec (length kept) (length l)) as [Heq | Hne]; [| right; lia].
    left. rewrite Hsorted. unfold kept in *. now rewrite (filter_length_eq _ _ Heq). }
  assert (Hproj : project localeCompare l config
                  = if limit config >? 0
                    then firstn (Js.clamp_index (length sorted) (limit config)) sorted
                    else sorted).
  { unfold project, sortRepos, filterRepos, Js.slice_to.
    rewrite secondPass_self by auto. reflexivity. }
  rewrite Hproj. destruct (limit config >? 0); [| split; [lia | exact Hwhole]].
  pose proof (totalPRs_firstn_le (Js.clamp_index (length sorted) (limit config))
                sorted Hnonneg) as Hcut.
  split; [lia|].
  destruct (Nat.eq_dec
              (length (firstn (Js.clamp_index (length sorted) (limit config)) sorted))
              (length sorted)) as [Heq | Hne].
  - rewrite (firstn_length_eq _ _ Heq). exact Hwhole.
  - right. pose proof (length_firstn (Js.clamp_index (length sorted) (limit config))
                         sorted). lia.
Qed.

Lemma fetchAndCache_aggregated (fuel : nat) (remote : Remote) (currentYear : Z)
  (times : Times) (username : string) (config : Config) (cache : Cache.t)
  (log : Log) (fetched : Fetched) :
  fetchAndCache fuel remote currentYear times username config cache
    = (log, Ok fetched) ->
  pages log <> [] ->
  exists repos cache',
    fetchContributedRepos fuel remote username currentYear = (pages log, Ok repos)
    /\ fetched = snd (enrich remote times username config cache' repos).
Proof.
  unfold fetchAndCache.
  destruct (negb (isCacheStale (at_check times) cache)
            && String.eqb (Cache.username cache) username
            && (Z.of_nat (length (Cache.repos cache)) >? 0)).
  - destruct (enrich _ _ _ _ _ _) as [l f]. intros [= <- <-]. cbn. congruence.
  - destruct (fetchContributedRepos fuel remote username currentYear)
      as [searches [repos | msg |]]; try (intros [= <-]; discriminate).
    destruct (enrich remote times username config _ repos) as [l f] eqn:E.
    intros [= <- <-] _. cbn [pages].
    exists repos, (Cache.mk username (Cache.repos cache) (Cache.fetchedAt cache)).
    split; [reflexivity|]. now rewrite E.
Qed.

(** X4: on a read that finds no memory entry and aggregates, the rollups
    that [fetchAndCache] hands back have PR counts that add up to the number
    of fetched items whose repository reference parses; the PR total that
    the routes compute over the list the read returns is at most that
    number, and equals it unless the filter or the limit removed a rollup. *)
Theorem reported_totalPRs_counts_parseable_items
  (localeCompare : string -> string -> Z) (env : Env) (config : Config)
  (st : Store) (log : Log) (fetched : Fetched) :
  memoryCache st !! identityOf config (env_login env) = None ->
  fetchAndCache (env_fuel env) (env_remote env) (env_year env) (env_times env)
    (identityOf config (env_login env)) config (loadCache (file st))
    = (log, Ok fetched) ->
  pages log <> [] ->
  let parsed :=
    Z.of_nat (length (List.filter parseable
                        (flat_map (itemsOf (env_remote env)
                                     (identityOf config (env_login env)))
                           (pages log)))) in
  exists reply,
    fst (getRepos localeCompare env config st) = Ok reply
    /\ Reply.repos reply = project localeCompare (fetched_repos fetched) config
    /\ totalPRs (fetched_repos fetched) = parsed
    /\ totalPRs (Reply.repos reply) <= parsed
    /\ (totalPRs (Reply.repos reply) = parsed
        \/ (length (Reply.repos reply) < length (fetched_repos fetched))%nat).
Proof.
  intros Hmiss Hrun Hpages. cbv zeta.
  destruct (fetchAndCache_aggregated _ _ _ _ _ _ _ _ _ Hrun Hpages)
    as (repos & cache' & Hagg & ->).
  pose proof (enrich_identityFields (env_remote env) (env_times env)
                (identityOf config (env_login env)) config cache' repos) as Hid.
  set (out := fetched_repos (snd (enrich (env_remote env) (env_times env)
                (identityOf config (env_login env)) config cache' repos))) in *.
  assert (Hcounts : map prCount out = map prCount (ranked repos)).
  { assert (H : forall l, map prCount l = map (fun t => snd t) (map identityFields l))
      by (intros l; now rewrite map_map).
    now rewrite H, Hid, <- H. }
  assert (Htotal : totalPRs out
                   = Z.of_nat (length (List.filter parseable
                        (flat_map (itemsOf (env_remote env)
                                     (identityOf config (env_login env)))
                           (pages log))))).
  { rewrite (totalPRs_same_counts _ _ Hcounts).
    rewrite <- (aggregated_totalPRs _ _ _ _ _ _ Hagg).
    symmetry. apply totalPRs_Permutation, stableSort_Permutation. }
  assert (Hnonneg : Forall (fun r => 0 <= prCount r) out).
  { apply (nonneg_same_counts (ranked repos)); [now symmetry|].
    apply List.Forall_forall. intros r Hr. apply In_ranked in Hr.
    rewrite (fetchContributedRepos_folds _ _ _ _ _ _ Hagg) in Hr.
    pose proof (foldItems_asAggregated (identityOf config (env_login env))
                  (flat_map (itemsOf (env_remote env)
                               (identityOf config (env_login env))) (pages log)) []
                  (List.Forall_nil _)) as Hall.
    unfold ReposMap.values in Hr. apply in_map_iff in Hr as (kv & <- & Hkv).
    rewrite List.Forall_forall in Hall. destruct (Hall kv Hkv) as (_ & _ & _ & _ & H).
    lia. }
  rewrite getRepos_miss by (intros ? ?; rewrite Hmiss; discriminate).
  rewrite Hrun. cbn [snd fst]. eexists. split; [reflexivity|]. cbn [Reply.repos].
  split; [reflexivity|]. split; [exact Htotal|].
  destruct (project_total localeCompare out config Hnonneg) as [Hle Hcase].
  rewrite <- Htotal. split; [exact Hle | exact Hcase].
Qed.

Lemma reported_totalPRs_counts_parseable_items_witness :
  exists log fetched reply,
    memoryCache (started None) !! "bob" = None
    /\ fetchAndCache 4 Ex.remote 2024 Ex.times "bob"
         (mkConfig ScopeExternal SortStars false 0 [] [] (Some "bob") (Some 20))
         (loadCache None) = (log, Ok fetched)
    /\ length (pages log) = 10%nat
    /\ fst (getRepos Ex.collate (Ex.envAt 0)
              (mkConfig ScopeExternal SortStars false 0 [] [] (Some "bob") (Some 20))
              (started None)) = Ok reply
    /\ totalPRs (fetched_repos fetched) = 3
    /\ totalPRs (Reply.repos reply) = 2.
Proof.
  destruct (fetchAndCache 4 Ex.remote 2024 Ex.times "bob"
              (mkConfig ScopeExternal SortStars false 0 [] [] (Some "bob") (Some 20))
              (loadCache None)) as [log out] eqn:Hrun.
  assert (Hout : exists fetched, out = Ok fetched /\ length (pages log) = 10%nat
                                 /\ totalPRs (fetched_repos fetched) = 3)
    by (vm_compute in Hrun; injection Hrun as <- <-; eexists; repeat split).
  destruct Hout as (fetched & -> & Hlen & Htotal).
  destruct (reported_totalPRs_counts_parseable_items Ex.collate (Ex.envAt 0)
              (mkConfig ScopeExternal SortStars false 0 [] [] (Some "bob") (Some 20))
              (started None) log fetched eq_refl Hrun
              ltac:(destruct (pages log); [discriminate Hlen | discriminate]))
    as (reply & Hreply & Hrepos & _).
  exists log, fetched, reply. split; [reflexivity|]. split; [reflexivity|].
  split; [exact Hlen|]. split; [exact Hreply|]. split; [exact Htotal|].
  rewrite Hrepos. vm_compute in Hrun. injection Hrun as _ <-. reflexivity.
Defined.
